(** * loggerd: the framed sink (RawFile) and the route manager (LoggerState)

    A shallow embedding of [system/loggerd/logger.h].

    [RawFile] talks to the C library and to libbz2.  Those calls are effects:
    the program appends each call to a log together with the reply the
    environment gave.  What a stream has accepted, what a flush has
    confirmed, whether a file is open and which paths exist are all read
    back from that log. *)

From Stdlib Require Import ZArith String List Bool Lia.
From Stdlib.Strings Require Import Byte.
From Stdlib Require Import DecimalString.
Import ListNotations.

Local Open Scope Z_scope.
Local Open Scope list_scope.

(** ** Constants of <bzlib.h> and <errno.h> *)

Definition BZ_OK : Z := 0.
Definition BZ_PARAM_ERROR : Z := -2.
Definition BZ_IO_ERROR : Z := -6.
Definition EINTR : Z := 4.

(** libbz2 accepts block sizes 1..9 (times 100k); 9 compresses best.  Its
    work factor defaults to 30. *)
Definition BZ_MAX_BLOCK_SIZE_100K : Z := 9.
Definition BZ_DEFAULT_WORK_FACTOR : Z := 30.

(** ** Machine integers

    [size_t] is an unsigned 64-bit integer; the length argument of
    [BZ2_bzWrite] is an [int]. *)

Definition to_size_t (z : Z) : Z := z mod 2 ^ 64.
Definition to_int (z : Z) : Z := (z + 2 ^ 31) mod 2 ^ 32 - 2 ^ 31.

(** The [len] bytes of the caller's buffer [data] that start at offset [off]. *)
Definition region (data : list byte) (off len : Z) : list byte :=
  firstn (Z.to_nat len) (skipn (Z.to_nat off) data).

(** ** External calls and the environment *)

(** A [FILE*] or [BZFILE*] that is not null names the call that opened it. *)
Abbreviation handle := nat.

Inductive call : Type :=
| Call_safe_fopen (path mode : string)
| Call_bzWriteOpen (f : option handle) (blockSize100k verbosity workFactor : Z)
| Call_bzWrite (b : handle) (buf : list byte) (len : Z)
| Call_bzWriteClose (b : handle) (abandon : Z)
| Call_safe_fflush (f : option handle)
| Call_fclose (f : option handle)
| Call_safe_fwrite (f : option handle) (buf : list byte) (size count : Z)
| Call_create_directories (path : string)
| Call_create_file (path : string)
| Call_remove (path : string).

(** What the environment answers.  [rv] is the value the call hands back
    (a pointer as zero / non-zero, [bzerror], an error code or a count),
    [r_errno] is [errno] right after the call and [r_taken] is how many bytes
    of its input a failing [BZ2_bzWrite] had already fed to the compressor. *)
Record reply : Type := mkReply { rv : Z; r_errno : Z; r_taken : nat }.

Abbreviation event := (call * reply)%type.
Abbreviation log := (list (call * reply)).

(** The environment chooses every reply; it sees the position of the call in
    the log and the call itself. *)
Definition env : Type := nat -> call -> reply.

(** ** The monad of the embedding *)

Inductive outcome (A : Type) : Type :=
| Ret (a : A)      (* the call returned *)
| Abort            (* an assertion failed *)
| Spin.            (* the retry loop was still running when the fuel ran out *)
Arguments Ret {A} a.
Arguments Abort {A}.
Arguments Spin {A}.

Definition M (A : Type) : Type := env -> log -> outcome A * log.

Definition ret {A} (a : A) : M A := fun _ l => (Ret a, l).
Definition abort {A} : M A := fun _ l => (Abort, l).
Definition spin {A} : M A := fun _ l => (Spin, l).

Definition bind {A B} (m : M A) (k : A -> M B) : M B :=
  fun e l =>
    match m e l with
    | (Ret a, l') => k a e l'
    | (Abort, l') => (Abort, l')
    | (Spin, l') => (Spin, l')
    end.

Declare Scope io_scope.
Delimit Scope io_scope with io.
Notation "x <- m ;; k" := (bind m (fun x => k))
  (at level 100, m at next level, right associativity) : io_scope.
Notation "m ;;; k" := (bind m (fun _ => k))
  (at level 100, right associativity) : io_scope.
Local Open Scope io_scope.

(** Issue an external call: ask the environment, record call and reply. *)
Definition ext (c : call) : M reply :=
  fun e l => let r := e (length l) c in (Ret r, l ++ [(c, r)]).

(** The position the next call will have; a successful open is named by it. *)
Definition next_handle : M handle := fun _ l => (Ret (length l), l).

(** C's [assert]. *)
Definition assert (b : bool) : M unit := if b then ret tt else abort.

(** ** What the log says about the outside world *)

(** The bytes an event adds to the input of compressor [b]: all of the
    buffer when the call reported [BZ_OK], otherwise the part it had taken. *)
Definition bz_taken (b : handle) (ev : event) : list byte :=
  match ev with
  | (Call_bzWrite b' buf _, r) =>
      if Nat.eqb b b' then
        if rv r =? BZ_OK then buf else firstn (r_taken r) buf
      else []
  | _ => []
  end.

(** The plain text the compressed stream [b] decodes to. *)
Definition bz_plain (b : handle) (l : log) : list byte := flat_map (bz_taken b) l.

(** The bytes the stream [f] accepts with an event: as many items of
    [size] bytes as the call reports. *)
Definition fwrite_taken (f : handle) (ev : event) : list byte :=
  match ev with
  | (Call_safe_fwrite (Some f') buf size _, r) =>
      if Nat.eqb f f' then firstn (Z.to_nat (rv r * size)) buf else []
  | _ => []
  end.

(** The bytes the stream [f] has accepted so far, in order.  This is what
    was handed to stdio, not what the file on disk holds: accepted bytes
    wait in the buffer of the stream, and are lost when the process aborts
    or when the flush that should deliver them fails. *)
Definition file_bytes (f : handle) (l : log) : list byte := flat_map (fwrite_taken f) l.

(** One event seen by a stream [f], as a step on the pair of what the
    stream has accepted and what a flush has confirmed: a [safe_fflush] of
    [f] that reports 0 confirms all that was accepted until then. *)
Definition flush_step (f : handle) (st : list byte * list byte) (ev : event)
  : list byte * list byte :=
  let accepted := fst st ++ fwrite_taken f ev in
  match ev with
  | (Call_safe_fflush (Some f'), r) =>
      if Nat.eqb f f' && (rv r =? 0) then (accepted, accepted)
      else (accepted, snd st)
  | _ => (accepted, snd st)
  end.

(** The bytes of [f] that a successful [safe_fflush] has confirmed as
    delivered to the host: the part of [file_bytes] that no abort and no
    later failure can take back.  (stdio may deliver more on its own when
    its buffer fills; the code is told of it only by a flush.) *)
Definition flushed_bytes (f : handle) (l : log) : list byte :=
  snd (fold_left (flush_step f) l ([], [])).

Definition nonempty (c : list byte) : bool := negb (Nat.eqb (length c) 0).

(** The chunks, one per call that took something, in the order of the calls. *)
Definition chunks (taken : event -> list byte) (l : log) : list (list byte) :=
  filter nonempty (map taken l).

Definition is_fclose (f : handle) (ev : event) : bool :=
  match ev with
  | (Call_fclose (Some f'), _) => Nat.eqb f f'
  | _ => false
  end.

Definition is_bzWriteClose (b : handle) (ev : event) : bool :=
  match ev with
  | (Call_bzWriteClose b' _, _) => Nat.eqb b b'
  | _ => false
  end.

(** Did the [n]-th call open a file, and under which name? *)
Definition opened_path (l : log) (n : handle) : option string :=
  match nth_error l n with
  | Some (Call_safe_fopen p _, r) => if rv r =? 0 then None else Some p
  | _ => None
  end.

(** The stdio stream [f] is open: it was opened and [fclose] was not called on it. *)
Definition file_open (f : handle) (l : log) : bool :=
  match opened_path l f with
  | Some _ => negb (existsb (is_fclose f) l)
  | None => false
  end.

(** The sink on [f] still takes writes: neither closed nor finalized. *)
Definition sink_live (f : handle) (l : log) : bool :=
  file_open f l && negb (existsb (is_bzWriteClose f) l).

(** The live sinks, in the order they were opened. *)
Definition live_handles (l : log) : list handle :=
  filter (fun n => sink_live n l) (seq 0 (length l)).

(** The names of the files behind the live sinks. *)
Definition live_paths (l : log) : list string :=
  flat_map (fun n => match opened_path l n with Some p => [p] | None => [] end)
           (live_handles l).

(** Whether [p] exists: the last creation or removal of [p] decides. *)
Definition touches (p : string) (present : bool) (ev : event) : bool :=
  match ev with
  | (Call_create_file q, r) => if String.eqb p q && negb (rv r =? 0) then true else present
  | (Call_safe_fopen q _, r) => if String.eqb p q && negb (rv r =? 0) then true else present
  | (Call_remove q, r) => if String.eqb p q && (rv r =? 0) then false else present
  | _ => present
  end.

Definition path_exists (p : string) (l : log) : bool := fold_left (touches p) l false.

(** ** RawFile *)

Module RawFile.

(** [FILE* file = nullptr; BZFILE* bz_file = nullptr;]  The compressor
    handle is named after the stream it wraps. *)
Record t : Type := mk { file : option handle; bz_file : option handle }.

Definition is_null (p : option handle) : bool :=
  match p with Some _ => false | None => true end.

(** [RawFile(const std::string &path, bool use_bz2 = false)].
    [BZ2_bzWriteOpen] hands back a null pointer exactly when it reports an
    error. *)
Definition ctor (path : string) (use_bz2 : bool) : M t :=
  let file_path := (path ++ (if use_bz2 then ".bz2" else ""))%string in
  h <- next_handle ;;
  r <- ext (Call_safe_fopen file_path "wb"%string) ;;
  let file := if rv r =? 0 then None else Some h in
  assert (negb (is_null file)) ;;;
  if use_bz2 then
    r <- ext (Call_bzWriteOpen file 9 0 30) ;;
    let bzerror := rv r in
    let bz_file := if bzerror =? BZ_OK then file else None in
    assert (bzerror =? BZ_OK) ;;;
    ret (mk file bz_file)
  else ret (mk file None).

(** [~RawFile()] *)
Definition dtor (rf : t) : M unit :=
  match bz_file rf with
  | Some b =>
      r <- ext (Call_bzWriteClose b 0) ;;
      let bzerror := rv r in
      assert (bzerror =? BZ_OK)
  | None =>
      ext (Call_safe_fflush (file rf)) ;;;
      r <- ext (Call_fclose (file rf)) ;;
      let err := rv r in
      assert (err =? 0)
  end.

(** The [while (written < size)] loop of the compressed path; one unit of
    fuel per call of [BZ2_bzWrite].  It returns [written]. *)
Fixpoint bz_loop (fuel : nat) (b : handle) (data : list byte)
         (size written count : Z) : M Z :=
  if written <? size then
    match fuel with
    | O => spin
    | S fuel' =>
        let off := to_size_t (written * count) in
        let len := to_int (to_size_t (count * to_size_t (size - written))) in
        r <- ext (Call_bzWrite b (region data off len) len) ;;
        let bzerror := rv r in
        let errno := r_errno r in
        if (bzerror =? BZ_IO_ERROR) && (errno =? EINTR) then
          bz_loop fuel' b data size written count  (* continue *)
        else if negb (bzerror =? BZ_OK) then
          ret written                              (* break *)
        else
          bz_loop fuel' b data size size count     (* written = size *)
    end
  else ret written.

(** [void write(void* data, size_t size)] *)
Definition write (fuel : nat) (rf : t) (data : list byte) (size : Z) : M unit :=
  match bz_file rf with
  | Some b =>
      written <- bz_loop fuel b data size 0 1 ;;
      assert (written =? size)
  | None =>
      r <- ext (Call_safe_fwrite (file rf) (region data 0 size) 1 size) ;;
      let written := rv r in
      assert (written =? size)
  end.

(** [void write(kj::ArrayPtr<capnp::byte> array)] *)
Definition write_array (fuel : nat) (rf : t) (array : list byte) : M unit :=
  write fuel rf array (Z.of_nat (length array)).

End RawFile.


(** The same, cut into the chunks the single calls delivered. *)
Definition sink_chunks (s : option RawFile.t) (l : log) : list (list byte) :=
  match s with
  | Some rf =>
      match RawFile.bz_file rf, RawFile.file rf with
      | Some b, _ => chunks (bz_taken b) l
      | None, Some f => chunks (fwrite_taken f) l
      | None, None => []
      end
  | None => []
  end.

(** ** LoggerState *)

(** [typedef cereal::Sentinel::SentinelType SentinelType;] *)
Inductive SentinelType : Type :=
| END_OF_SEGMENT
| END_OF_ROUTE
| START_OF_SEGMENT
| START_OF_ROUTE.

Module LoggerState.

(** The members of the class.  The two [int]s are kept as integers: a route
    does not live for 2^31 segments. *)
Record t : Type := mk {
  part : Z;
  exit_signal : Z;
  route_path : string;
  route_name : string;
  segment_path : string;
  lock_file : string;
  init_data : list byte;
  rlog : option RawFile.t;
  qlog : option RawFile.t
}.

(** The members as their in-class initialisers leave them:
    [int part = -1, exit_signal = 0;], empty strings, null sinks. *)
Definition fresh : t :=
  mk (-1) 0 EmptyString EmptyString EmptyString EmptyString [] None None.

(** [inline int segment() const { return part; }] *)
Definition segment (ls : t) : Z := part ls.

(** [inline const std::string& segmentPath() const { return segment_path; }] *)
Definition segmentPath (ls : t) : string := segment_path ls.

(** [inline const std::string& routeName() const { return route_name; }] *)
Definition routeName (ls : t) : string := route_name ls.

(** [inline void setExitSignal(int signal) { exit_signal = signal; }] *)
Definition setExitSignal (signal : Z) (ls : t) : t :=
  mk (part ls) signal (route_path ls) (route_name ls) (segment_path ls)
     (lock_file ls) (init_data ls) (rlog ls) (qlog ls).

(** [ls] with another segment index, segment directory and pair of sinks. *)
Definition with_segment (ls : t) (index : Z) (dir : string)
           (r q : option RawFile.t) : t :=
  mk index (exit_signal ls) (route_path ls) (route_name ls) dir
     (lock_file ls) (init_data ls) r q.

Section Collaborators.

(** The sentinel codec and the formatting of a segment index come from
    outside this header. *)
Variable encode : SentinelType -> Z -> list byte.
Variable index_name : Z -> string.

(** A write through a [std::unique_ptr<RawFile>]; no sink, no write. *)
Definition sink_write (fuel : nat) (s : option RawFile.t)
           (data : list byte) (size : Z) : M unit :=
  match s with
  | Some rf => RawFile.write fuel rf data size
  | None => abort
  end.

(** Resetting a [std::unique_ptr<RawFile>] destroys the sink it owns. *)
Definition sink_close (s : option RawFile.t) : M unit :=
  match s with
  | Some rf => RawFile.dtor rf
  | None => ret tt
  end.

(** Modelled from the spec: the body of [LoggerState::write], declared
    here and defined elsewhere.  "always writes buffer to the full-log
    sink; additionally writes it to the quick-log sink iff to_quick_log
    is true". *)
Definition write (fuel : nat) (ls : t) (data : list byte) (size : Z)
           (in_qlog : bool) : M unit :=
  sink_write fuel (rlog ls) data size ;;;
  if in_qlog then sink_write fuel (qlog ls) data size else ret tt.

(** A frame that goes to both logs. *)
Definition write_frame (fuel : nat) (ls : t) (frame : list byte) : M unit :=
  write fuel ls frame (Z.of_nat (length frame)) true.

(** Modelled from the spec: opening a segment.  "creates the segment
    directory", "opens the full-log sink (always compressed) and the
    quick-log sink (always uncompressed)", "writes encode(start-of-segment)
    then init_payload to both sinks"; the first segment of a route has
    the start-of-route sentinel ahead of that. *)
Definition segment_open (fuel : nat) (ls : t) (index : Z) (first : bool) : M t :=
  let dir := (route_path ls ++ "/" ++ index_name index)%string in
  r <- ext (Call_create_directories dir) ;;
  assert (negb (rv r =? 0)) ;;;
  full <- RawFile.ctor (dir ++ "/rlog")%string true ;;
  quick <- RawFile.ctor (dir ++ "/qlog")%string false ;;
  let ls' := with_segment ls index dir (Some full) (Some quick) in
  (if first then write_frame fuel ls' (encode START_OF_ROUTE 0) else ret tt) ;;;
  write_frame fuel ls' (encode START_OF_SEGMENT 0) ;;;
  write_frame fuel ls' (init_data ls') ;;;
  ret ls'.

(** Modelled from the spec: closing a segment.  "writes
    encode(end-of-segment) (or end-of-route with the given code ...) to
    both sinks, then tears down both Framed Sinks in sequence". *)
Definition segment_close (fuel : nat) (ls : t) (kind : SentinelType)
           (code : Z) : M t :=
  write_frame fuel ls (encode kind code) ;;;
  sink_close (rlog ls) ;;;
  sink_close (qlog ls) ;;;
  ret (with_segment ls (part ls) (segment_path ls) None None).

(** Modelled from the spec: the constructor [LoggerState::LoggerState].
    "resolve route name ..., create route directory, create lock file,
    build the initialization payload via the external collaborator, call
    Segment.open(route_dir, 0, init_payload)"; "Any failure during
    construction is fatal". *)
Definition ctor (fuel : nat) (log_root name : string) (payload : list byte) : M t :=
  let route := (log_root ++ "/" ++ name)%string in
  let lock := (route ++ ".lock")%string in
  r <- ext (Call_create_directories route) ;;
  assert (negb (rv r =? 0)) ;;;
  r <- ext (Call_create_file lock) ;;
  assert (negb (rv r =? 0)) ;;;
  let ls := mk (part fresh) (exit_signal fresh) route name EmptyString lock
               payload None None in
  segment_open fuel ls 0 true.

(** Modelled from the spec: [bool LoggerState::next()].  "closes current
    Segment via close(no exit code), increments the segment index, opens
    the new Segment". *)
Definition next (fuel : nat) (ls : t) : M (bool * t) :=
  ls1 <- segment_close fuel ls END_OF_SEGMENT 0 ;;
  ls2 <- segment_open fuel ls1 (part ls1 + 1) false ;;
  ret (true, ls2).

(** Modelled from the spec: the destructor [LoggerState::~LoggerState].
    "call current Segment's close(exit_code_if_route_end =
    recorded_exit_signal) ...; only after that completes successfully,
    delete the lock file". *)
Definition dtor (fuel : nat) (ls : t) : M unit :=
  segment_close fuel ls END_OF_ROUTE (exit_signal ls) ;;;
  r <- ext (Call_remove (lock_file ls)) ;;
  assert (rv r =? 0).

(** What a caller may do with a live route manager. *)
Inductive op : Type :=
| Op_write (data : list byte) (in_qlog : bool)
| Op_next
| Op_setExitSignal (signal : Z).

Definition run_op (fuel : nat) (o : op) (ls : t) : M t :=
  match o with
  | Op_write data in_qlog =>
      write fuel ls data (Z.of_nat (length data)) in_qlog ;;; ret ls
  | Op_next =>
      p <- next fuel ls ;;
      if fst p then ret (snd p) else abort
  | Op_setExitSignal signal => ret (setExitSignal signal ls)
  end.

Fixpoint run_ops (fuel : nat) (os : list op) (ls : t) : M t :=
  match os with
  | [] => ret ls
  | o :: os' => ls' <- run_op fuel o ls ;; run_ops fuel os' ls'
  end.

(** The index [segment()] shows before each of [n] calls of [next()]
    and after the last of them. *)
Fixpoint segments_seen (fuel n : nat) (ls : t) : M (list Z) :=
  match n with
  | O => ret [segment ls]
  | S n' =>
      p <- next fuel ls ;;
      if fst p then
        rest <- segments_seen fuel n' (snd p) ;;
        ret (segment ls :: rest)
      else ret [segment ls]
  end.

End Collaborators.

End LoggerState.

(** ** Environments *)

(** When does a reply report success? *)
Definition succeeds (c : call) (r : reply) : bool :=
  match c with
  | Call_safe_fopen _ _ => negb (rv r =? 0)
  | Call_bzWriteOpen _ _ _ _ => rv r =? BZ_OK
  | Call_bzWrite _ _ _ => rv r =? BZ_OK
  | Call_bzWriteClose _ _ => rv r =? BZ_OK
  | Call_safe_fflush _ => rv r =? 0
  | Call_fclose _ => rv r =? 0
  | Call_safe_fwrite _ _ _ count => rv r =? count
  | Call_create_directories _ => negb (rv r =? 0)
  | Call_create_file _ => negb (rv r =? 0)
  | Call_remove _ => rv r =? 0
  end.

(** An environment in which nothing goes wrong. *)
Definition calm (e : env) : Prop := forall n c, succeeds c (e n c) = true.

Definition calm_env : env :=
  fun _ c =>
    match c with
    | Call_safe_fopen _ _ => mkReply 1 0 0
    | Call_safe_fwrite _ _ _ count => mkReply count 0 0
    | Call_create_directories _ => mkReply 1 0 0
    | Call_create_file _ => mkReply 1 0 0
    | _ => mkReply 0 0 0
    end.

(** [fwrite] never reports more items than it was asked to write. *)
Definition fwrite_bounded (e : env) : Prop :=
  forall n f buf size count,
    0 <= count -> 0 <= rv (e n (Call_safe_fwrite f buf size count)) <= count.

(** A reply of [BZ2_bzWrite] that the loop takes for an interrupted call. *)
Definition interrupted (r : reply) : bool :=
  (rv r =? BZ_IO_ERROR) && (r_errno r =? EINTR).

(** A fault-injecting compressor: every [BZ2_bzWrite] issued before
    position [until] of the log is answered [BZ_IO_ERROR] with [errno] at
    [EINTR] and nothing taken, the later ones succeed, and every other call
    succeeds.  It exercises the retry branch of [RawFile.write] up to the
    point where the loop leaves it; libbz2 itself never recovers this way,
    see [stuck_env]. *)
Definition eintr_env (until : nat) : env :=
  fun n c =>
    match c with
    | Call_bzWrite _ _ _ =>
        if (n <? until)%nat then mkReply BZ_IO_ERROR EINTR 0
        else mkReply BZ_OK 0 0
    | _ => calm_env n c
    end.


(** An environment whose every [BZ2_bzWrite] fails with [bzerror]. *)
Definition failing_env (bzerror : Z) : env :=
  fun n c =>
    match c with
    | Call_bzWrite _ _ _ => mkReply bzerror 0 0
    | _ => calm_env n c
    end.

(** ** Vocabulary of the statements *)

(** The one call the loop ever issues while nothing has been written. *)
Definition bz_call (b : handle) (data : list byte) (size : Z) : call :=
  let len := to_int (to_size_t (1 * to_size_t (size - 0))) in
  Call_bzWrite b (region data (to_size_t (0 * 1)) len) len.

(** The events of [n] calls of [c] in a row, from the end of [l] on. *)
Definition attempts (e : env) (l : log) (c : call) (n : nat) : log :=
  map (fun i => (c, e (length l + i)%nat c)) (seq 0 n).

(** A buffer whose length survives the conversion to [int]. *)
Definition fits_int (data : list byte) : Prop := Z.of_nat (length data) < 2 ^ 31.

(** Kinds of events. *)
Definition is_remove (ev : event) : bool :=
  match fst ev with Call_remove _ => true | _ => false end.

Definition not_remove (ev : event) : bool := negb (is_remove ev).

Definition is_bzWrite (ev : event) : bool :=
  match fst ev with Call_bzWrite _ _ _ => true | _ => false end.

Definition is_write (ev : event) : bool :=
  match fst ev with
  | Call_bzWrite _ _ _ | Call_safe_fwrite _ _ _ _ => true
  | _ => false
  end.

Definition is_flush (ev : event) : bool :=
  match fst ev with Call_safe_fflush _ => true | _ => false end.

(** [m] only appends to the log, and only events that satisfy [P]. *)
Definition emits {A} (P : event -> bool) (m : M A) : Prop :=
  forall e l, exists evs, snd (m e l) = l ++ evs /\ forallb P evs = true.

(** [l'] extends [l] by events that write nothing. *)
Definition quiet_suffix (l l' : log) : Prop :=
  exists evs, l' = l ++ evs /\ forallb (fun ev => negb (is_write ev)) evs = true.

(** [P] holds at every moment of the run recorded in [l], from its [k]-th
    event on. *)
Definition always_from (k : nat) (P : log -> Prop) (l : log) : Prop :=
  forall n, (k <= n <= length l)%nat -> P (firstn n l).

(** *** Live sinks *)

(** No handle that is still to be given out has been closed. *)
Definition closes_known (l : log) : Prop :=
  forall n, (length l <= n)%nat ->
            existsb (is_fclose n) l = false /\ existsb (is_bzWriteClose n) l = false.

(** The handle an event closes or finalizes, and whether it opens one. *)
Definition closed_handle (ev : event) : option handle :=
  match ev with
  | (Call_fclose (Some h), _) => Some h
  | (Call_bzWriteClose h _, _) => Some h
  | _ => None
  end.

Definition opens (ev : event) : bool :=
  match ev with
  | (Call_safe_fopen _ _, r) => negb (rv r =? 0)
  | _ => false
  end.

(** How the event at position [k] changes the list of live sinks. *)
Definition live_step (lh : list handle) (k : nat) (ev : event) : list handle :=
  match closed_handle ev with
  | Some h => filter (fun n => negb (Nat.eqb n h)) lh
  | None => lh
  end ++ (if opens ev then [k] else []).

(** The event at position [k] closes nothing but a handle given out before. *)
Definition closes_ok (k : nat) (ev : event) : Prop :=
  match closed_handle ev with
  | Some h => (h < k)%nat
  | None => True
  end.

(** The live sinks are sinks of the segment directory [dir], each at most once. *)
Definition within (dir : string) (l : log) : Prop :=
  let r := (dir ++ "/rlog.bz2")%string in
  let q := (dir ++ "/qlog")%string in
  live_paths l = [] \/ live_paths l = [r] \/ live_paths l = [q] \/ live_paths l = [r; q].

(** All live sinks belong to one and the same segment of the route. *)
Definition one_segment (route : string) (index_name : Z -> string) (l : log) : Prop :=
  exists i : Z, within (route ++ "/" ++ index_name i)%string l.

(** *** The route manager *)

(** The route manager holds the compressed sink [h1] and the plain sink [h2]. *)
Definition holds (ls : LoggerState.t) (h1 h2 : handle) : Prop :=
  LoggerState.rlog ls = Some (RawFile.mk (Some h1) (Some h1)) /\
  LoggerState.qlog ls = Some (RawFile.mk (Some h2) None).

(** The live sinks are the two of the segment the route manager is in. *)
Definition in_segment (ls : LoggerState.t) (l : log) : Prop :=
  exists h1 h2,
    holds ls h1 h2 /\ (h1 < h2 < length l)%nat /\ closes_known l /\
    live_handles l = [h1; h2] /\
    opened_path l h1 = Some (LoggerState.segment_path ls ++ "/rlog.bz2")%string /\
    opened_path l h2 = Some (LoggerState.segment_path ls ++ "/qlog")%string.

(** The lock file of the route [name] under [log_root]. *)
Definition lock_path (log_root name : string) : string :=
  ((log_root ++ "/" ++ name) ++ ".lock")%string.

(** [m] returns in the environment [e], from any log, with a value that
    satisfies [Q]. *)
Definition returns {A} (Q : A -> Prop) (m : M A) (e : env) : Prop :=
  forall l, exists a l', m e l = (Ret a, l') /\ Q a.

(** The route manager holds two sinks, a compressed and a plain one. *)
Definition active (ls : LoggerState.t) : Prop := exists h1 h2, holds ls h1 h2.


(** The exit signal on record after the operations [os], [d] being the one
    on record before: the argument of the last [setExitSignal] among them. *)
Definition last_signal (os : list LoggerState.op) (d : Z) : Z :=
  fold_left (fun d o => match o with
                        | LoggerState.Op_setExitSignal signal => signal
                        | _ => d
                        end) os d.

(** ** Runs on concrete inputs *)

(** Open a compressed sink on [path], write [array] to it, keep it. *)
Definition compressed_write_scenario (fuel : nat) (path : string)
           (array : list byte) : M RawFile.t :=
  rf <- RawFile.ctor path true ;;
  RawFile.write_array fuel rf array ;;;
  ret rf.

(** Open a sink on [path] and tear it down again. *)
Definition open_close_scenario (path : string) (use_bz2 : bool) : M unit :=
  rf <- RawFile.ctor path use_bz2 ;;
  RawFile.dtor rf.

(** A sentinel codec (the tag of the sentinel, then the low byte of the
    code) and the plain decimal index format. *)
Definition byte_of_Z (z : Z) : byte :=
  match Byte.of_N (Z.to_N (z mod 256)) with
  | Some b => b
  | None => x00
  end.

Definition demo_encode (kind : SentinelType) (code : Z) : list byte :=
  [match kind with
   | END_OF_SEGMENT => x00
   | END_OF_ROUTE => x01
   | START_OF_SEGMENT => x02
   | START_OF_ROUTE => x03
   end; byte_of_Z code].

Definition demo_index_name (i : Z) : string := NilZero.string_of_int (Z.to_int i).

(** The route "r1" under "/data", started in a fresh process in which no
    call fails. *)
Definition demo_ctor : outcome LoggerState.t * log :=
  LoggerState.ctor demo_encode demo_index_name 1 "/data" "r1" [x2a] calm_env [].

Definition demo_state : LoggerState.t :=
  Eval vm_compute in
    match fst demo_ctor with
    | Ret ls => ls
    | _ => LoggerState.fresh
    end.

Definition demo_log : log := Eval vm_compute in snd demo_ctor.

(** ** The life of one sink *)

(** Write the buffers one after the other through
    [write(kj::ArrayPtr<capnp::byte>)], as a user of a sink does. *)
Fixpoint write_all (fuel : nat) (rf : RawFile.t) (bufs : list (list byte)) : M unit :=
  match bufs with
  | [] => ret tt
  | buf :: bufs' => RawFile.write_array fuel rf buf ;;; write_all fuel rf bufs'
  end.

(** Construct a sink, write the buffers, destroy the sink. *)
Definition sink_lifetime (fuel : nat) (path : string) (use_bz2 : bool)
           (bufs : list (list byte)) : M RawFile.t :=
  rf <- RawFile.ctor path use_bz2 ;;
  write_all fuel rf bufs ;;;
  RawFile.dtor rf ;;;
  ret rf.

(** An environment whose interrupted calls of [BZ2_bzWrite] had taken nothing. *)
Definition untaken (e : env) : Prop :=
  forall n c, interrupted (e n c) = true -> r_taken (e n c) = O.

(** * Properties *)

(** ** The monad *)

Lemma bind_Ret {A B} (m : M A) (k : A -> M B) e l a l' :
  m e l = (Ret a, l') -> bind m k e l = k a e l'.
Proof. intros H. unfold bind. now rewrite H. Qed.

Lemma bind_inv_Ret {A B} (m : M A) (k : A -> M B) e l b l2 :
  bind m k e l = (Ret b, l2) ->
  exists a l1, m e l = (Ret a, l1) /\ k a e l1 = (Ret b, l2).
Proof.
  unfold bind. destruct (m e l) as [[a| |] l1]; intros H; try discriminate.
  now exists a, l1.
Qed.

Lemma ext_run c e l : ext c e l = (Ret (e (length l) c), l ++ [(c, e (length l) c)]).
Proof. reflexivity. Qed.

(** ** Machine integers *)

Lemma to_size_t_small z : 0 <= z < 2 ^ 64 -> to_size_t z = z.
Proof. intros H. unfold to_size_t. now apply Z.mod_small. Qed.

Lemma to_int_small z : - 2 ^ 31 <= z < 2 ^ 31 -> to_int z = z.
Proof. intros H. unfold to_int. rewrite Z.mod_small; lia. Qed.

Lemma region_whole (data : list byte) :
  region data 0 (Z.of_nat (length data)) = data.
Proof.
  unfold region. simpl. rewrite Nat2Z.id. apply firstn_all.
Qed.

(** ** The retry loop of the compressed path *)

Lemma attempts_S e l c n :
  attempts e l c (S n) = (c, e (length l) c) :: attempts e (l ++ [(c, e (length l) c)]) c n.
Proof.
  unfold attempts. simpl. rewrite Nat.add_0_r. f_equal.
  rewrite <- seq_shift, map_map. apply map_ext. intros i.
  rewrite length_app. simpl. do 2 f_equal. lia.
Qed.

Lemma attempts_snoc e l c n :
  attempts e l c (S n) = attempts e l c n ++ [(c, e (length l + n)%nat c)].
Proof.
  unfold attempts. rewrite seq_S, map_app. reflexivity.
Qed.

Lemma length_attempts e l c n : length (attempts e l c n) = n.
Proof. unfold attempts. now rewrite length_map, length_seq. Qed.

Lemma bz_loop_done fuel b data size count e l :
  RawFile.bz_loop fuel b data size size count e l = (Ret size, l).
Proof.
  destruct fuel; simpl; rewrite Z.ltb_irrefl; reflexivity.
Qed.

(** One turn of the loop, by the reply it gets. *)
Lemma bz_loop_step fuel b data size e l :
  0 < size ->
  let c := bz_call b data size in
  let r := e (length l) c in
  let l' := l ++ [(c, r)] in
  RawFile.bz_loop (S fuel) b data size 0 1 e l =
    if interrupted r then RawFile.bz_loop fuel b data size 0 1 e l'
    else if rv r =? BZ_OK then (Ret size, l')
    else (Ret 0, l').
Proof.
  intros Hsize. cbv zeta. cbn [RawFile.bz_loop].
  assert (Hlt : (0 <? size) = true) by now apply Z.ltb_lt.
  rewrite Hlt. unfold bind at 1. rewrite ext_run.
  fold (bz_call b data size).
  generalize (e (length l) (bz_call b data size)). intros r.
  unfold interrupted.
  destruct ((rv r =? BZ_IO_ERROR) && (r_errno r =? EINTR)); [reflexivity|].
  destruct (rv r =? BZ_OK); cbn [negb].
  - apply bz_loop_done.
  - reflexivity.
Qed.

(** As long as the replies say "interrupted" the loop goes on, with the
    same call. *)
Lemma bz_loop_retries n : forall fuel b data size e l,
  0 < size ->
  (forall i, (i < n)%nat ->
             interrupted (e (length l + i)%nat (bz_call b data size)) = true) ->
  RawFile.bz_loop (n + fuel) b data size 0 1 e l =
  RawFile.bz_loop fuel b data size 0 1 e (l ++ attempts e l (bz_call b data size) n).
Proof.
  induction n as [|n IH]; intros fuel b data size e l Hsize Hint.
  - simpl. unfold attempts. simpl. now rewrite app_nil_r.
  - replace (S n + fuel)%nat with (S (n + fuel)) by lia.
    rewrite bz_loop_step by assumption.
    pose proof (Hint 0%nat ltac:(lia)) as H0. rewrite Nat.add_0_r in H0. rewrite H0.
    rewrite IH; [|assumption|].
    + rewrite attempts_S, <- app_assoc. reflexivity.
    + intros i Hi. rewrite length_app. simpl.
      replace (length l + 1 + i)%nat with (length l + S i)%nat by lia.
      apply Hint. lia.
Qed.

Lemma bz_loop_out_of_fuel b data size e l :
  0 < size -> RawFile.bz_loop 0 b data size 0 1 e l = (Spin, l).
Proof.
  intros H. simpl. apply Z.ltb_lt in H. now rewrite H.
Qed.

Lemma write_bz_unfold fuel f b data size e l :
  RawFile.write fuel (RawFile.mk f (Some b)) data size e l =
  match RawFile.bz_loop fuel b data size 0 1 e l with
  | (Ret written, l') => (if written =? size then Ret tt else Abort, l')
  | (Abort, l') => (Abort, l')
  | (Spin, l') => (Spin, l')
  end.
Proof.
  unfold RawFile.write, bind. cbn [RawFile.bz_file].
  destruct (RawFile.bz_loop fuel b data size 0 1 e l) as [[w| |] l']; try reflexivity.
  unfold assert. now destruct (w =? size).
Qed.

(** C2.  Compressed path of [RawFile::write], for a buffer that is not
    empty.  While the compressor answers [BZ_IO_ERROR] with [errno == EINTR]
    the same call is issued again, without any bound: after [n] such
    answers the loop is still running.  The first other answer ends it: on
    [BZ_OK] the write returns, on any other error the assertion
    [written == size] fails.  The write returns exactly when the loop leaves
    [written] equal to [size]. *)
Theorem RawFile_write_bz_retry_policy :
  forall f b data size e l n,
    0 < size ->
    (forall i, (i < n)%nat ->
               interrupted (e (length l + i)%nat (bz_call b data size)) = true) ->
    let rf := RawFile.mk f (Some b) in
    let c := bz_call b data size in
    let r := e (length l + n)%nat c in
    (forall fuel, (fuel <= n)%nat ->
       RawFile.write fuel rf data size e l = (Spin, l ++ attempts e l c fuel)) /\
    (forall fuel, (n < fuel)%nat -> interrupted r = false ->
       RawFile.write fuel rf data size e l =
       (if rv r =? BZ_OK then Ret tt else Abort, l ++ attempts e l c (S n))) /\
    (forall fuel,
       fst (RawFile.write fuel rf data size e l) = Ret tt <->
       fst (RawFile.bz_loop fuel b data size 0 1 e l) = Ret size).
Proof.
  intros f b data size e l n Hsize Hint rf c r. subst rf. repeat split.
  - intros fuel Hfuel. rewrite write_bz_unfold.
    replace fuel with (fuel + 0)%nat at 1 by lia.
    rewrite bz_loop_retries; [|assumption|intros i Hi; apply Hint; lia].
    now rewrite bz_loop_out_of_fuel.
  - intros fuel Hfuel Hr. rewrite write_bz_unfold.
    replace fuel with (n + S (fuel - S n))%nat by lia.
    rewrite bz_loop_retries by assumption.
    rewrite bz_loop_step by assumption.
    rewrite length_app, length_attempts. fold c. fold r. rewrite Hr.
    rewrite attempts_snoc, <- app_assoc. fold c. fold r.
    destruct (rv r =? BZ_OK) eqn:Hok.
    + now rewrite Z.eqb_refl.
    + assert (H0 : (0 =? size) = false) by (apply Z.eqb_neq; lia).
      now rewrite H0.
  - rewrite write_bz_unfold.
    destruct (RawFile.bz_loop fuel b data size 0 1 e l) as [[w| |] l']; cbn [fst];
      try discriminate.
    destruct (w =? size) eqn:Hw; [|discriminate].
    intros _. apply Z.eqb_eq in Hw. now subst.
  - rewrite write_bz_unfold.
    destruct (RawFile.bz_loop fuel b data size 0 1 e l) as [[w| |] l']; cbn [fst];
      try discriminate.
    intros H. injection H as ->. now rewrite Z.eqb_refl.
Qed.

Lemma RawFile_write_bz_retry_policy_witness :
  RawFile.write 2 (RawFile.mk (Some 0%nat) (Some 0%nat)) [x01; x02; x03] 3
                (eintr_env 1) [] =
  (Ret tt,
   [(Call_bzWrite 0 [x01; x02; x03] 3, mkReply BZ_IO_ERROR EINTR 0);
    (Call_bzWrite 0 [x01; x02; x03] 3, mkReply BZ_OK 0 0)]).
Proof.
  refine (proj1 (proj2 (RawFile_write_bz_retry_policy
                          (Some 0%nat) 0%nat [x01; x02; x03] 3
                          (eintr_env 1) [] 1 _ _)) 2%nat _ _).
  - lia.
  - intros i Hi. destruct i; [reflexivity | lia].
  - lia.
  - reflexivity.
Defined.

Example RawFile_write_param_error_aborts :
  RawFile.write 5 (RawFile.mk (Some 0%nat) (Some 0%nat)) [x01] 1
                (failing_env BZ_PARAM_ERROR) [] =
  (Abort, [(Call_bzWrite 0 [x01] 1, mkReply BZ_PARAM_ERROR 0 0)]).
Proof. reflexivity. Qed.

Example RawFile_write_io_error_without_eintr_aborts :
  RawFile.write 5 (RawFile.mk (Some 0%nat) (Some 0%nat)) [x01] 1
                (failing_env BZ_IO_ERROR) [] =
  (Abort, [(Call_bzWrite 0 [x01] 1, mkReply BZ_IO_ERROR 0 0)]).
Proof. reflexivity. Qed.

Example RawFile_write_eintr_without_end_spins :
  fst (RawFile.write 7 (RawFile.mk (Some 0%nat) (Some 0%nat)) [x01] 1
                     (eintr_env 100) []) = Spin /\
  length (snd (RawFile.write 7 (RawFile.mk (Some 0%nat) (Some 0%nat)) [x01] 1
                             (eintr_env 100) [])) = 7%nat.
Proof. split; reflexivity. Qed.

(** ** The uncompressed path *)

Lemma write_plain_unfold fuel f data size e l :
  let c := Call_safe_fwrite f (region data 0 size) 1 size in
  let r := e (length l) c in
  RawFile.write fuel (RawFile.mk f None) data size e l =
  (if rv r =? size then Ret tt else Abort, l ++ [(c, r)]).
Proof.
  cbv zeta. unfold RawFile.write, bind. cbn [RawFile.bz_file RawFile.file].
  rewrite ext_run. unfold assert.
  now destruct (rv _ =? size).
Qed.

(** C3.  Uncompressed path of [RawFile::write]: one call of
    [util::safe_fwrite] for the whole buffer ([size] items of one byte) and
    nothing else; the write returns when that call reports [size] items and
    the assertion fails otherwise, in particular on a short write. *)
Theorem RawFile_write_plain_single_call :
  forall fuel f data size e l,
    let rf := RawFile.mk f None in
    let c := Call_safe_fwrite f (region data 0 size) 1 size in
    let r := e (length l) c in
    RawFile.write fuel rf data size e l =
      (if rv r =? size then Ret tt else Abort, l ++ [(c, r)]) /\
    (rv r < size -> fst (RawFile.write fuel rf data size e l) = Abort) /\
    RawFile.write_array fuel rf data e l =
      (let c' := Call_safe_fwrite f data 1 (Z.of_nat (length data)) in
       let r' := e (length l) c' in
       (if rv r' =? Z.of_nat (length data) then Ret tt else Abort, l ++ [(c', r')])).
Proof.
  intros fuel f data size e l rf c r. subst rf. split; [|split].
  - apply write_plain_unfold.
  - intros Hshort. rewrite write_plain_unfold. fold c. fold r.
    assert (H : (rv r =? size) = false) by (apply Z.eqb_neq; lia).
    now rewrite H.
  - unfold RawFile.write_array. rewrite write_plain_unfold, region_whole. reflexivity.
Qed.

(** C10.  [RawFile::write] with [size == 0], on either path: the call
    returns, no assertion fails and no sink gains a byte.  The compressed
    path does not even enter its loop: it issues no call, whatever the fuel. *)
Theorem RawFile_write_empty :
  forall fuel rf data e l,
    fwrite_bounded e ->
    exists l',
      RawFile.write fuel rf data 0 e l = (Ret tt, l') /\
      (forall h, bz_plain h l' = bz_plain h l) /\
      (forall h, file_bytes h l' = file_bytes h l) /\
      (RawFile.bz_file rf <> None -> l' = l).
Proof.
  intros fuel [f [b|]] data e l Hb.
  - exists l. rewrite write_bz_unfold.
    assert (Hloop : RawFile.bz_loop fuel b data 0 0 1 e l = (Ret 0, l))
      by apply bz_loop_done.
    rewrite Hloop. cbn. repeat split; reflexivity.
  - eexists. rewrite write_plain_unfold. cbv zeta.
    specialize (Hb (length l) f (region data 0 0) 1 0).
    assert (Hrv : rv (e (length l) (Call_safe_fwrite f (region data 0 0) 1 0)) = 0) by lia.
    rewrite Hrv. cbn [Z.eqb]. repeat split.
    + intros h. unfold bz_plain. rewrite flat_map_app. cbn. now rewrite app_nil_r.
    + intros h. unfold file_bytes. rewrite flat_map_app.
      cbn [flat_map fwrite_taken]. rewrite Hrv.
      destruct f as [f'|]; [destruct (Nat.eqb h f')|]; cbn; now rewrite app_nil_r.
    + intros H. now elim H.
Qed.

Lemma calm_env_fwrite_bounded : fwrite_bounded calm_env.
Proof. intros n f buf size count H. cbn. lia. Qed.

Lemma RawFile_write_empty_witness :
  exists l',
    RawFile.write 0 (RawFile.mk (Some 0%nat) None) [] 0 calm_env [] = (Ret tt, l') /\
    (forall h, bz_plain h l' = bz_plain h []) /\
    (forall h, file_bytes h l' = file_bytes h []) /\
    (RawFile.bz_file (RawFile.mk (Some 0%nat) None) <> None -> l' = []).
Proof.
  apply (RawFile_write_empty 0 (RawFile.mk (Some 0%nat) None) [] calm_env []).
  intros n f buf size count H. cbn. lia.
Defined.

(** ** Construction *)

Lemma string_length_append (a b : string) :
  String.length (a ++ b)%string = (String.length a + String.length b)%nat.
Proof. induction a as [|c a IH]; simpl; [reflexivity | now rewrite IH]. Qed.

Lemma string_append_nil_r (a : string) : (a ++ "")%string = a.
Proof. induction a as [|c a IH]; simpl; [reflexivity | now rewrite IH]. Qed.

Lemma ctor_unfold path (use_bz2 : bool) (e : env) (l : log) :
  let h := length l in
  let c1 := Call_safe_fopen (path ++ (if use_bz2 then ".bz2" else ""))%string "wb"%string in
  let r1 := e h c1 in
  let c2 := Call_bzWriteOpen (Some h) 9 0 30 in
  let r2 := e (S h) c2 in
  RawFile.ctor path use_bz2 e l =
  if rv r1 =? 0 then (Abort, l ++ [(c1, r1)])
  else if use_bz2 then
         (if rv r2 =? BZ_OK then Ret (RawFile.mk (Some h) (Some h)) else Abort,
          l ++ [(c1, r1); (c2, r2)])
       else (Ret (RawFile.mk (Some h) None), l ++ [(c1, r1)]).
Proof.
  cbv zeta. unfold RawFile.ctor, bind, next_handle. rewrite ext_run.
  destruct (rv _ =? 0) eqn:H1; cbn [RawFile.is_null negb assert]; [reflexivity|].
  unfold ret at 1. destruct use_bz2; [|reflexivity].
  rewrite ext_run, length_app, <- app_assoc. cbn [length app].
  replace (length l + 1)%nat with (S (length l)) by lia.
  destruct (rv _ =? BZ_OK) eqn:H2; reflexivity.
Qed.

Lemma string_append_assoc (a b c : string) :
  ((a ++ b) ++ c)%string = (a ++ (b ++ c))%string.
Proof. induction a as [|x a IH]; simpl; [reflexivity | now rewrite IH]. Qed.

(** C5.  The constructor of [RawFile].  With [use_bz2] it opens
    [path + ".bz2"], a name different from [path], in mode "wb" (create or
    truncate), and then starts the compressor on that stream with block
    size 9, the largest, verbosity 0 and work factor 30, the default;
    a failed open or a failed start is an assertion failure.  Without
    [use_bz2] it opens [path] itself and starts no compressor. *)
Theorem RawFile_ctor_opens :
  forall path (e : env) (l : log),
    let h := length l in
    (path ++ ".bz2")%string <> path /\
    (let c1 := Call_safe_fopen (path ++ ".bz2")%string "wb"%string in
     let r1 := e h c1 in
     let c2 := Call_bzWriteOpen (Some h) BZ_MAX_BLOCK_SIZE_100K 0 BZ_DEFAULT_WORK_FACTOR in
     let r2 := e (S h) c2 in
     RawFile.ctor path true e l =
     if rv r1 =? 0 then (Abort, l ++ [(c1, r1)])
     else (if rv r2 =? BZ_OK then Ret (RawFile.mk (Some h) (Some h)) else Abort,
           l ++ [(c1, r1); (c2, r2)])) /\
    (let c1 := Call_safe_fopen path "wb"%string in
     let r1 := e h c1 in
     RawFile.ctor path false e l =
     (if rv r1 =? 0 then Abort else Ret (RawFile.mk (Some h) None), l ++ [(c1, r1)])).
Proof.
  intros path e l h. split; [|split].
  - intros H. apply (f_equal String.length) in H.
    rewrite string_length_append in H. simpl in H. lia.
  - cbv zeta. rewrite ctor_unfold. reflexivity.
  - cbv zeta. rewrite ctor_unfold. cbv zeta. rewrite string_append_nil_r.
    now destruct (rv _ =? 0).
Qed.

(** ** Teardown *)

Lemma dtor_bz_unfold f b (e : env) (l : log) :
  let c := Call_bzWriteClose b 0 in
  let r := e (length l) c in
  RawFile.dtor (RawFile.mk f (Some b)) e l =
  (if rv r =? BZ_OK then Ret tt else Abort, l ++ [(c, r)]).
Proof.
  cbv zeta. unfold RawFile.dtor, bind. cbn [RawFile.bz_file]. rewrite ext_run.
  unfold assert. now destruct (rv _ =? BZ_OK).
Qed.

Lemma dtor_plain_unfold f (e : env) (l : log) :
  let c1 := Call_safe_fflush f in
  let r1 := e (length l) c1 in
  let c2 := Call_fclose f in
  let r2 := e (S (length l)) c2 in
  RawFile.dtor (RawFile.mk f None) e l =
  (if rv r2 =? 0 then Ret tt else Abort, l ++ [(c1, r1); (c2, r2)]).
Proof.
  cbv zeta. unfold RawFile.dtor, bind. cbn [RawFile.bz_file RawFile.file].
  rewrite !ext_run, length_app, <- app_assoc. cbn [length app].
  replace (length l + 1)%nat with (S (length l)) by lia.
  unfold assert. now destruct (rv _ =? 0).
Qed.

(** Tearing down a compressed sink never calls [fclose]: the stream that
    was open before is open afterwards. *)
Lemma dtor_bz_leaves_file_open f b e l h :
  file_open h l = true ->
  file_open h (snd (RawFile.dtor (RawFile.mk f (Some b)) e l)) = true.
Proof.
  rewrite dtor_bz_unfold. cbn [snd]. unfold file_open, opened_path.
  destruct (nth_error l h) as [ev|] eqn:Hn; [|discriminate].
  rewrite nth_error_app1 by (apply nth_error_Some; congruence).
  rewrite Hn, existsb_app. cbn. now rewrite orb_false_r.
Qed.

(** Tearing down an uncompressed sink flushes, then closes the stream. *)
Lemma dtor_plain_closes_file h e l :
  file_open h (snd (RawFile.dtor (RawFile.mk (Some h) None) e l)) = false.
Proof.
  rewrite dtor_plain_unfold. cbn [snd]. unfold file_open.
  destruct (opened_path _ h); [|reflexivity].
  rewrite existsb_app. cbn. rewrite Nat.eqb_refl. cbn.
  now rewrite orb_true_r.
Qed.

(** C4.  A compressed sink opened on "rlog" and torn down at once, with
    every call succeeding: the destructor issues [BZ2_bzWriteClose] and
    nothing else.  [fclose] is never called, and the stream of "rlog.bz2"
    is still open when the destructor has returned. *)
Theorem RawFile_dtor_compressed_never_closes_file :
  open_close_scenario "rlog"%string true calm_env [] =
    (Ret tt,
     [(Call_safe_fopen "rlog.bz2"%string "wb"%string, mkReply 1 0 0);
      (Call_bzWriteOpen (Some 0%nat) 9 0 30, mkReply 0 0 0);
      (Call_bzWriteClose 0 0, mkReply 0 0 0)]) /\
  file_open 0 (snd (open_close_scenario "rlog"%string true calm_env [])) = true /\
  file_open 0 (snd (open_close_scenario "qlog"%string false calm_env [])) = false.
Proof. repeat split. Qed.

(** ** Interrupted compressed writes *)

Lemma bz_call_whole b (data : list byte) :
  Z.of_nat (length data) < 2 ^ 31 ->
  bz_call b data (Z.of_nat (length data)) =
  Call_bzWrite b data (Z.of_nat (length data)).
Proof.
  intros H. unfold bz_call.
  assert (H31 : 2 ^ 31 = 2147483648) by reflexivity.
  assert (H64 : 2 ^ 64 = 18446744073709551616) by reflexivity.
  rewrite Z.sub_0_r, Z.mul_1_l.
  assert (Hs' : to_size_t (Z.of_nat (length data)) = Z.of_nat (length data))
    by (apply to_size_t_small; lia).
  rewrite !Hs', to_int_small by lia.
  change (to_size_t (0 * 1)) with 0.
  now rewrite region_whole.
Qed.



(** ** What a computation adds to the log *)

Lemma emits_ret {A} P (a : A) : emits P (ret a).
Proof. intros e l. exists []. now rewrite app_nil_r. Qed.

Lemma emits_abort {A} P : emits P (@abort A).
Proof. intros e l. exists []. now rewrite app_nil_r. Qed.

Lemma emits_spin {A} P : emits P (@spin A).
Proof. intros e l. exists []. now rewrite app_nil_r. Qed.

Lemma emits_assert P b : emits P (assert b).
Proof. destruct b; [apply emits_ret | apply emits_abort]. Qed.

Lemma emits_ext (P : event -> bool) c : (forall r, P (c, r) = true) -> emits P (ext c).
Proof.
  intros H e l. exists [(c, e (length l) c)]. split; [reflexivity|].
  cbn. now rewrite H.
Qed.

Lemma emits_next_handle P : emits P next_handle.
Proof. intros e l. exists []. now rewrite app_nil_r. Qed.

Lemma emits_bind {A B} P (m : M A) (k : A -> M B) :
  emits P m -> (forall a, emits P (k a)) -> emits P (bind m k).
Proof.
  intros Hm Hk e l. destruct (Hm e l) as (evs & Hl & Hevs).
  unfold bind. destruct (m e l) as [[a| |] l1]; cbn [snd] in *; subst l1.
  - destruct (Hk a e (l ++ evs)) as (evs' & Hl' & Hevs').
    exists (evs ++ evs'). rewrite Hl', app_assoc, forallb_app, Hevs, Hevs'. auto.
  - now exists evs.
  - now exists evs.
Qed.

Lemma emits_weaken {A} (P Q : event -> bool) (m : M A) :
  (forall ev, P ev = true -> Q ev = true) -> emits P m -> emits Q m.
Proof.
  intros HPQ Hm e l. destruct (Hm e l) as (evs & Hl & Hevs).
  exists evs. split; [assumption|].
  rewrite forallb_forall in *. auto.
Qed.

Ltac emits_step :=
  match goal with
  | |- emits _ (bind _ _) => apply emits_bind; [|intros ?]
  | |- emits _ (ret _) => apply emits_ret
  | |- emits _ abort => apply emits_abort
  | |- emits _ spin => apply emits_spin
  | |- emits _ (assert _) => apply emits_assert
  | |- emits _ next_handle => apply emits_next_handle
  | |- emits _ (ext _) => apply emits_ext; intros ?; reflexivity
  | |- emits _ (if ?b then _ else _) => destruct b
  | |- emits _ (match ?x with Some _ => _ | None => _ end) => destruct x
  end.

Lemma emits_bz_loop fuel : forall b data size written count,
  emits is_bzWrite (RawFile.bz_loop fuel b data size written count).
Proof.
  induction fuel as [|fuel IH]; intros b data size written count; cbn [RawFile.bz_loop];
    repeat emits_step; auto.
Qed.

Lemma emits_write_bz fuel f b data size :
  emits is_bzWrite (RawFile.write fuel (RawFile.mk f (Some b)) data size).
Proof.
  unfold RawFile.write. cbn [RawFile.bz_file]. repeat emits_step. apply emits_bz_loop.
Qed.

Lemma is_bzWrite_is_write ev : is_bzWrite ev = true -> is_write ev = true.
Proof. destruct ev as [[] r]; cbn; congruence. Qed.

Lemma emits_RawFile_write fuel rf data size :
  emits is_write (RawFile.write fuel rf data size).
Proof.
  destruct rf as [f [b|]].
  - apply emits_weaken with (P := is_bzWrite);
      [apply is_bzWrite_is_write | apply emits_write_bz].
  - unfold RawFile.write. cbn [RawFile.bz_file]. repeat emits_step.
Qed.

Lemma is_write_not_remove ev : is_write ev = true -> not_remove ev = true.
Proof. destruct ev as [[] r]; cbn; congruence. Qed.

Lemma emits_RawFile_ctor path use_bz2 : emits not_remove (RawFile.ctor path use_bz2).
Proof. unfold RawFile.ctor. repeat emits_step. Qed.

Lemma emits_RawFile_dtor rf : emits not_remove (RawFile.dtor rf).
Proof. unfold RawFile.dtor. repeat emits_step. Qed.

Section LoggerStateLog.

Variable encode : SentinelType -> Z -> list byte.
Variable index_name : Z -> string.

Lemma emits_sink_write fuel s data size :
  emits is_write (LoggerState.sink_write fuel s data size).
Proof.
  destruct s; cbn; [apply emits_RawFile_write | apply emits_abort].
Qed.

Lemma emits_LoggerState_write fuel ls data size in_qlog :
  emits is_write (LoggerState.write fuel ls data size in_qlog).
Proof.
  unfold LoggerState.write. repeat emits_step; apply emits_sink_write.
Qed.

Lemma emits_sink_close s : emits not_remove (LoggerState.sink_close s).
Proof. destruct s; cbn; [apply emits_RawFile_dtor | apply emits_ret]. Qed.

Lemma emits_write_frame fuel ls frame :
  emits not_remove (LoggerState.write_frame fuel ls frame).
Proof.
  apply emits_weaken with (P := is_write); [apply is_write_not_remove|].
  apply emits_LoggerState_write.
Qed.

Lemma emits_segment_open fuel ls index first :
  emits not_remove (LoggerState.segment_open encode index_name fuel ls index first).
Proof.
  unfold LoggerState.segment_open.
  repeat first [ apply emits_RawFile_ctor | apply emits_write_frame | emits_step ].
Qed.

Lemma emits_segment_close fuel ls kind code :
  emits not_remove (LoggerState.segment_close encode fuel ls kind code).
Proof.
  unfold LoggerState.segment_close.
  repeat first [ apply emits_sink_close | apply emits_write_frame | emits_step ].
Qed.

Lemma emits_next fuel ls :
  emits not_remove (LoggerState.next encode index_name fuel ls).
Proof.
  unfold LoggerState.next.
  repeat first [ apply emits_segment_close | apply emits_segment_open | emits_step ].
Qed.

Lemma emits_run_op fuel o ls :
  emits not_remove (LoggerState.run_op encode index_name fuel o ls).
Proof.
  destruct o; cbn [LoggerState.run_op].
  - emits_step; [|emits_step].
    apply emits_weaken with (P := is_write); [apply is_write_not_remove|].
    apply emits_LoggerState_write.
  - emits_step; [apply emits_next|]. repeat emits_step.
  - emits_step.
Qed.

Lemma emits_run_ops fuel os : forall ls,
  emits not_remove (LoggerState.run_ops encode index_name fuel os ls).
Proof.
  induction os as [|o os IH]; intros ls; cbn [LoggerState.run_ops].
  - emits_step.
  - emits_step; [apply emits_run_op | apply IH].
Qed.

End LoggerStateLog.

(** ** Which paths exist *)

Lemma path_exists_app p l evs :
  path_exists p (l ++ evs) = fold_left (touches p) evs (path_exists p l).
Proof. unfold path_exists. apply fold_left_app. Qed.

Lemma touches_keeps p evs :
  forallb not_remove evs = true -> fold_left (touches p) evs true = true.
Proof.
  induction evs as [|[c r] evs IH]; cbn [forallb fold_left]; [reflexivity|].
  intros H. apply andb_prop in H as [Hev Hevs].
  assert (Ht : touches p true (c, r) = true).
  { destruct c; cbn in *; try reflexivity; try discriminate;
      now destruct (_ && _). }
  rewrite Ht. now apply IH.
Qed.

Lemma path_exists_kept {A} (m : M A) p e l :
  emits not_remove m -> path_exists p l = true -> path_exists p (snd (m e l)) = true.
Proof.
  intros Hm Hp. destruct (Hm e l) as (evs & -> & Hevs).
  rewrite path_exists_app, Hp. now apply touches_keeps.
Qed.

(** ** Opening and closing a segment *)

Lemma bind_ext {B} c (k : reply -> M B) e l :
  bind (ext c) k e l = k (e (length l) c) e (l ++ [(c, e (length l) c)]).
Proof. reflexivity. Qed.

Lemma bind_assert {B} b (k : unit -> M B) e l :
  bind (assert b) k e l = if b then k tt e l else (Abort, l).
Proof. now destruct b. Qed.

Lemma emits_Ret {A} P (m : M A) e l a l' :
  emits P m -> m e l = (Ret a, l') ->
  exists evs, l' = l ++ evs /\ forallb P evs = true.
Proof.
  intros Hm H. destruct (Hm e l) as (evs & Hl & Hevs).
  rewrite H in Hl. now exists evs.
Qed.

Lemma ctor_Ret path use_bz2 e l rf l' :
  RawFile.ctor path use_bz2 e l = (Ret rf, l') ->
  let h := length l in
  let c1 := Call_safe_fopen (path ++ (if use_bz2 then ".bz2" else ""))%string "wb"%string in
  exists r1, rv r1 <> 0 /\
    if use_bz2 then
      exists r2, rf = RawFile.mk (Some h) (Some h) /\
                 l' = l ++ [(c1, r1); (Call_bzWriteOpen (Some h) 9 0 30, r2)]
    else rf = RawFile.mk (Some h) None /\ l' = l ++ [(c1, r1)].
Proof.
  rewrite ctor_unfold. cbv zeta.
  destruct (rv _ =? 0) eqn:H1; [discriminate|]. apply Z.eqb_neq in H1.
  intros H. eexists. split; [exact H1|].
  destruct use_bz2.
  - destruct (rv _ =? BZ_OK); [|discriminate].
    injection H as <- <-. eexists. split; reflexivity.
  - injection H as <- <-. split; reflexivity.
Qed.

Section Segments.

Variable encode : SentinelType -> Z -> list byte.
Variable index_name : Z -> string.

Lemma write_frame_Ret fuel ls frame e l l' :
  LoggerState.write_frame fuel ls frame e l = (Ret tt, l') ->
  exists evs, l' = l ++ evs /\ forallb is_write evs = true.
Proof. apply emits_Ret, emits_LoggerState_write. Qed.

Lemma segment_open_Ret fuel ls index first e l ls' l' :
  LoggerState.segment_open encode index_name fuel ls index first e l = (Ret ls', l') ->
  let dir := (LoggerState.route_path ls ++ "/" ++ index_name index)%string in
  let h1 := S (length l) in
  let h2 := (length l + 3)%nat in
  exists r0 r1 r2 r3 evs,
    l' = l ++ [(Call_create_directories dir, r0);
               (Call_safe_fopen (dir ++ "/rlog.bz2")%string "wb"%string, r1);
               (Call_bzWriteOpen (Some h1) 9 0 30, r2);
               (Call_safe_fopen (dir ++ "/qlog")%string "wb"%string, r3)] ++ evs /\
    rv r1 <> 0 /\ rv r3 <> 0 /\
    forallb is_write evs = true /\
    ls' = LoggerState.with_segment ls index dir
            (Some (RawFile.mk (Some h1) (Some h1))) (Some (RawFile.mk (Some h2) None)).
Proof.
  intros H. cbv zeta. unfold LoggerState.segment_open in H.
  rewrite bind_ext, bind_assert in H.
  destruct (negb _); [|discriminate].
  apply bind_inv_Ret in H as (full & la & Hfull & H).
  apply bind_inv_Ret in H as (quick & lb & Hquick & H).
  apply ctor_Ret in Hfull as (r1 & Hr1 & r2 & -> & ->).
  apply ctor_Ret in Hquick as (r3 & Hr3 & -> & ->).
  apply bind_inv_Ret in H as ([] & lc & Hc & H).
  apply bind_inv_Ret in H as ([] & ld & Hd & H).
  apply bind_inv_Ret in H as ([] & le & He & H).
  injection H as <- <-.
  match type of Hc with
  | _ _ ?lx = _ =>
      assert (Hc' : exists evs, lc = lx ++ evs /\ forallb is_write evs = true)
  end.
  { destruct first.
    - eapply write_frame_Ret, Hc.
    - injection Hc as <-. exists []. now rewrite app_nil_r. }
  destruct Hc' as (evc & -> & Hevc).
  apply write_frame_Ret in Hd as (evd & -> & Hevd).
  apply write_frame_Ret in He as (eve & -> & Heve).
  rewrite !length_app. cbn [length].
  replace (length l + 1)%nat with (S (length l)) by lia.
  replace (S (length l) + 2)%nat with (length l + 3)%nat by lia.
  eexists _, r1, r2, r3, (evc ++ evd ++ eve).
  repeat split; try assumption.
  - rewrite <- !app_assoc. cbn [app].
    rewrite string_append_nil_r, !string_append_assoc. reflexivity.
  - now rewrite !forallb_app, Hevc, Hevd, Heve.
Qed.

End Segments.

Section Lifecycle.

Variable encode : SentinelType -> Z -> list byte.
Variable index_name : Z -> string.

Lemma segment_close_Ret fuel ls kind code e l ls' l' h1 h2 :
  holds ls h1 h2 ->
  LoggerState.segment_close encode fuel ls kind code e l = (Ret ls', l') ->
  exists evs r1 r2 r3,
    l' = l ++ evs ++ [(Call_bzWriteClose h1 0, r1);
                      (Call_safe_fflush (Some h2), r2);
                      (Call_fclose (Some h2), r3)] /\
    forallb is_write evs = true /\
    ls' = LoggerState.with_segment ls (LoggerState.part ls)
            (LoggerState.segment_path ls) None None.
Proof.
  intros [Hr Hq] H. unfold LoggerState.segment_close in H.
  apply bind_inv_Ret in H as ([] & la & Ha & H).
  apply write_frame_Ret in Ha as (evs & -> & Hevs).
  rewrite Hr, Hq in H. cbn [LoggerState.sink_close] in H.
  apply bind_inv_Ret in H as ([] & lb & Hb & H).
  rewrite dtor_bz_unfold in Hb. cbv zeta in Hb.
  destruct (rv _ =? BZ_OK); [|discriminate]. injection Hb as <-.
  apply bind_inv_Ret in H as ([] & lc & Hc & H).
  rewrite dtor_plain_unfold in Hc. cbv zeta in Hc.
  destruct (rv _ =? 0); [|discriminate]. injection Hc as <-.
  injection H as <- <-.
  eexists evs, _, _, _. rewrite <- !app_assoc. cbn [app]. repeat split.
  assumption.
Qed.

Lemma ctor_Ret_state fuel log_root name payload e l ls l' :
  LoggerState.ctor encode index_name fuel log_root name payload e l = (Ret ls, l') ->
  let route := (log_root ++ "/" ++ name)%string in
  let lock := lock_path log_root name in
  exists r0 r1 l1,
    rv r1 <> 0 /\
    l1 = l ++ [(Call_create_directories route, r0); (Call_create_file lock, r1)] /\
    LoggerState.segment_open encode index_name fuel
      (LoggerState.mk (-1) 0 route name EmptyString lock payload None None)
      0 true e l1 = (Ret ls, l').
Proof.
  intros H. cbv zeta. unfold LoggerState.ctor in H.
  rewrite bind_ext, bind_assert in H.
  destruct (negb _); [|discriminate].
  rewrite bind_ext, bind_assert in H.
  destruct (negb _) eqn:H1; [|discriminate].
  apply negb_true_iff, Z.eqb_neq in H1.
  eexists _, _, _. split; [exact H1|]. split; [|exact H].
  rewrite <- app_assoc. reflexivity.
Qed.

Lemma ctor_holds fuel log_root name payload e l ls l' :
  LoggerState.ctor encode index_name fuel log_root name payload e l = (Ret ls, l') ->
  LoggerState.exit_signal ls = 0 /\ exists h1 h2, holds ls h1 h2.
Proof.
  intros H. apply ctor_Ret_state in H as (r0 & r1 & la & _ & _ & H).
  apply segment_open_Ret in H as (? & ? & ? & ? & ? & _ & _ & _ & _ & ->).
  split; [reflexivity|]. eexists _, _. split; reflexivity.
Qed.

Lemma run_op_lock fuel o ls e l ls' l' :
  LoggerState.run_op encode index_name fuel o ls e l = (Ret ls', l') ->
  LoggerState.lock_file ls' = LoggerState.lock_file ls.
Proof.
  destruct o; cbn [LoggerState.run_op]; intros H.
  - apply bind_inv_Ret in H as ([] & la & _ & H). now injection H as <-.
  - apply bind_inv_Ret in H as ([ok ls2] & la & Hn & H).
    cbn [fst snd] in H. destruct ok; [|discriminate]. injection H as <- <-.
    unfold LoggerState.next in Hn.
    apply bind_inv_Ret in Hn as (ls1 & lb & Hc & Hn).
    apply bind_inv_Ret in Hn as (ls3 & lc & Ho & Hn).
    injection Hn as <- <-.
    apply segment_open_Ret in Ho as (? & ? & ? & ? & ? & _ & _ & _ & _ & ->).
    cbn [LoggerState.with_segment LoggerState.lock_file].
    unfold LoggerState.segment_close in Hc.
    apply bind_inv_Ret in Hc as (? & ? & _ & Hc).
    apply bind_inv_Ret in Hc as (? & ? & _ & Hc).
    apply bind_inv_Ret in Hc as (? & ? & _ & Hc).
    now injection Hc as <-.
  - now injection H as <-.
Qed.

Lemma run_ops_lock fuel os : forall ls e l ls' l',
  LoggerState.run_ops encode index_name fuel os ls e l = (Ret ls', l') ->
  LoggerState.lock_file ls' = LoggerState.lock_file ls.
Proof.
  induction os as [|o os IH]; intros ls e l ls' l' H; cbn [LoggerState.run_ops] in H.
  - now injection H as <-.
  - apply bind_inv_Ret in H as (ls1 & l1 & H1 & H).
    apply IH in H. apply run_op_lock in H1. congruence.
Qed.

(** C6.  The lock file of a route.  Once the constructor has returned the
    lock file exists.  It still exists after any sequence of [write],
    [next] and [setExitSignal], however that sequence ends, so also when
    the process stops there and the destructor never runs.  The destructor
    removes it as its very last call, after the segment has been closed:
    when the destructor returns the lock file is gone, and when it does not
    return (the close failed, or the removal did) the lock file is still
    there. *)
Theorem LoggerState_lock_file_lifetime :
  forall fuel log_root name payload e l0 ls l1,
    LoggerState.ctor encode index_name fuel log_root name payload e l0 = (Ret ls, l1) ->
    let lock := lock_path log_root name in
    LoggerState.lock_file ls = lock /\
    path_exists lock l1 = true /\
    forall fuel' os,
      let run := LoggerState.run_ops encode index_name fuel' os ls e l1 in
      path_exists lock (snd run) = true /\
      forall ls2, fst run = Ret ls2 ->
        forall fuel'',
          let down := LoggerState.dtor encode fuel'' ls2 e (snd run) in
          (fst down = Ret tt ->
             path_exists lock (snd down) = false /\
             exists evs r, snd down = snd run ++ evs ++ [(Call_remove lock, r)] /\
                           forallb not_remove evs = true) /\
          (fst down <> Ret tt -> path_exists lock (snd down) = true).
Proof.
  intros fuel log_root name payload e l0 ls l1 Hctor lock.
  apply ctor_Ret_state in Hctor as (r0 & r1 & la & Hr1 & -> & Hopen).
  fold lock in Hopen.
  assert (Hlock : LoggerState.lock_file ls = lock).
  { apply segment_open_Ret in Hopen as (? & ? & ? & ? & ? & _ & _ & _ & _ & ->).
    reflexivity. }
  assert (Hl1 : path_exists lock l1 = true).
  { pose proof (path_exists_kept
                  (LoggerState.segment_open encode index_name fuel
                     (LoggerState.mk (-1) 0 (log_root ++ "/" ++ name)%string name
                        EmptyString lock payload None None) 0 true)
                  lock e
                  (l0 ++ [(Call_create_directories (log_root ++ "/" ++ name)%string, r0);
                          (Call_create_file lock, r1)])
                  (emits_segment_open encode index_name _ _ _ _)) as Hk.
    rewrite Hopen in Hk. apply Hk.
    rewrite path_exists_app. cbn [fold_left touches].
    rewrite String.eqb_refl. apply Z.eqb_neq in Hr1. now rewrite Hr1. }
  split; [assumption|]. split; [assumption|].
  intros fuel' os run.
  assert (Hrun : path_exists lock (snd run) = true).
  { apply path_exists_kept; [apply emits_run_ops | assumption]. }
  split; [assumption|].
  intros ls2 Hret fuel'' down.
  assert (Hlock2 : LoggerState.lock_file ls2 = lock).
  { rewrite <- Hlock. apply (run_ops_lock fuel' os ls e l1 ls2 (snd run)).
    fold run. destruct run as [o lr]. cbn in Hret. now subst. }
  subst down. unfold LoggerState.dtor, bind.
  pose proof (emits_segment_close encode fuel'' ls2 END_OF_ROUTE
                (LoggerState.exit_signal ls2) e (snd run)) as (evs & Hevs & Hnr).
  destruct (LoggerState.segment_close encode fuel'' ls2 END_OF_ROUTE
              (LoggerState.exit_signal ls2) e (snd run)) as [[ls3| |] lc];
    cbn [snd] in Hevs; subst lc.
  - rewrite ext_run, Hlock2. unfold assert.
    destruct (rv _ =? 0) eqn:Hrm; unfold ret, abort; cbn [fst snd]; split;
      try congruence.
    + intros _. split.
      * rewrite path_exists_app. cbn [fold_left touches].
        rewrite String.eqb_refl. now rewrite Hrm.
      * eexists evs, _. rewrite <- app_assoc. split; [reflexivity | assumption].
    + intros _. rewrite !path_exists_app, Hrun. cbn [fold_left touches].
      rewrite touches_keeps by assumption.
      rewrite String.eqb_refl. now rewrite Hrm.
  - cbn [fst snd]. split; [discriminate|]. intros _.
    rewrite path_exists_app, Hrun. now apply touches_keeps.
  - cbn [fst snd]. split; [discriminate|]. intros _.
    rewrite path_exists_app, Hrun. now apply touches_keeps.
Qed.

End Lifecycle.

(** ** Live sinks *)

Lemma opened_path_app1 l evs n :
  (n < length l)%nat -> opened_path (l ++ evs) n = opened_path l n.
Proof. intros H. unfold opened_path. now rewrite nth_error_app1. Qed.

Lemma opened_path_new l ev :
  opened_path (l ++ [ev]) (length l) =
  match ev with
  | (Call_safe_fopen p _, r) => if rv r =? 0 then None else Some p
  | _ => None
  end.
Proof.
  unfold opened_path. rewrite nth_error_app2, Nat.sub_diag by lia. reflexivity.
Qed.

Lemma closes_spec n ev :
  is_fclose n ev || is_bzWriteClose n ev =
  match closed_handle ev with Some h => Nat.eqb n h | None => false end.
Proof.
  destruct ev as [[] r]; cbn; try reflexivity.
  destruct f; cbn; [now rewrite orb_false_r | reflexivity].
Qed.

Lemma sink_live_snoc_old l ev n :
  (n < length l)%nat ->
  sink_live n (l ++ [ev]) = sink_live n l && negb (is_fclose n ev || is_bzWriteClose n ev).
Proof.
  intros H. unfold sink_live, file_open.
  rewrite opened_path_app1, !existsb_app by assumption. cbn [existsb].
  rewrite !orb_false_r.
  destruct (opened_path l n), (existsb (is_fclose n) l),
    (existsb (is_bzWriteClose n) l), (is_fclose n ev), (is_bzWriteClose n ev);
    reflexivity.
Qed.

Lemma sink_live_snoc_new l ev :
  closes_known l -> closes_ok (length l) ev ->
  sink_live (length l) (l ++ [ev]) = opens ev.
Proof.
  intros Hk Hok. destruct (Hk (length l) (le_n _)) as [Hf Hb].
  unfold sink_live, file_open. rewrite opened_path_new, !existsb_app, Hf, Hb.
  cbn [existsb orb].
  destruct ev as [[] r]; cbn; try reflexivity.
  now destruct (rv r =? 0).
Qed.

Lemma filter_andb {A} (f g : A -> bool) xs :
  filter (fun x => f x && g x) xs = filter g (filter f xs).
Proof.
  induction xs as [|x xs IH]; cbn; [reflexivity|].
  destruct (f x); cbn; [destruct (g x)|]; now rewrite IH.
Qed.

Lemma filter_all {A} (xs : list A) : filter (fun _ => true) xs = xs.
Proof. induction xs; cbn; congruence. Qed.

Lemma live_handles_snoc l ev :
  closes_known l -> closes_ok (length l) ev ->
  live_handles (l ++ [ev]) = live_step (live_handles l) (length l) ev /\
  closes_known (l ++ [ev]).
Proof.
  intros Hk Hok. split.
  - unfold live_handles, live_step. rewrite length_app. cbn [length].
    rewrite Nat.add_1_r, seq_S, filter_app. cbn [filter plus].
    rewrite sink_live_snoc_new by assumption. f_equal.
    rewrite (filter_ext_in _ (fun n => sink_live n l &&
                                negb (is_fclose n ev || is_bzWriteClose n ev))).
    + rewrite filter_andb.
      destruct (closed_handle ev) as [h|] eqn:Hc.
      * apply filter_ext. intros n. now rewrite closes_spec, Hc.
      * etransitivity; [|apply filter_all].
        apply filter_ext. intros n. now rewrite closes_spec, Hc.
    + intros n Hn. apply in_seq in Hn. apply sink_live_snoc_old. lia.
  - intros n Hn. rewrite length_app in Hn. cbn [length] in Hn.
    destruct (Hk n ltac:(lia)) as [Hf Hb].
    rewrite !existsb_app, Hf, Hb. cbn [existsb orb].
    pose proof (closes_spec n ev) as Hs. unfold closes_ok in Hok.
    destruct (closed_handle ev) as [h|].
    + assert (Hne : Nat.eqb n h = false) by (apply Nat.eqb_neq; lia).
      rewrite Hne in Hs. apply orb_false_elim in Hs as [-> ->]. auto.
    + apply orb_false_elim in Hs as [-> ->]. auto.
Qed.

Lemma live_handles_writes evs : forall l,
  forallb is_write evs = true -> closes_known l ->
  live_handles (l ++ evs) = live_handles l /\ closes_known (l ++ evs).
Proof.
  induction evs as [|ev evs IH]; intros l Hw Hk.
  - now rewrite app_nil_r.
  - cbn [forallb] in Hw. apply andb_prop in Hw as [Hev Hevs].
    assert (Hnone : closed_handle ev = None /\ opens ev = false).
    { destruct ev as [[] r]; cbn in Hev; try discriminate; auto. }
    destruct Hnone as [Hc Ho].
    destruct (live_handles_snoc l ev Hk) as [Hl Hk'].
    { unfold closes_ok. now rewrite Hc. }
    replace (l ++ ev :: evs) with ((l ++ [ev]) ++ evs) by now rewrite <- app_assoc.
    destruct (IH (l ++ [ev]) Hevs Hk') as [Hl2 Hk2].
    split; [|assumption].
    rewrite Hl2, Hl. unfold live_step. rewrite Hc, Ho. apply app_nil_r.
Qed.

Lemma in_segment_live_paths ls l :
  in_segment ls l ->
  live_paths l = [(LoggerState.segment_path ls ++ "/rlog.bz2")%string;
                  (LoggerState.segment_path ls ++ "/qlog")%string].
Proof.
  intros (h1 & h2 & _ & _ & _ & Hl & H1 & H2).
  unfold live_paths. rewrite Hl. cbn [flat_map]. now rewrite H1, H2.
Qed.

(** ** At every moment of a run *)

Lemma always_snoc k (P : log -> Prop) l ev :
  always_from k P l -> P (l ++ [ev]) -> always_from k P (l ++ [ev]).
Proof.
  intros Hl Hev n Hn. rewrite length_app in Hn. cbn [length] in Hn.
  destruct (Nat.eq_dec n (length l + 1)) as [->|Hne].
  - rewrite firstn_all2 by (rewrite length_app; cbn [length]; lia). exact Hev.
  - rewrite firstn_app. replace (n - length l)%nat with O by lia.
    cbn [firstn]. rewrite app_nil_r. apply Hl. lia.
Qed.

Lemma always_now k (P : log -> Prop) l :
  (k <= length l)%nat -> always_from k P l -> P l.
Proof.
  intros Hk H. specialize (H (length l) ltac:(lia)). now rewrite firstn_all in H.
Qed.

Lemma live_handles_lt l h : In h (live_handles l) -> (h < length l)%nat.
Proof.
  unfold live_handles. intros H. apply filter_In in H as [H _].
  apply in_seq in H. lia.
Qed.

Lemma live_paths_of l hs :
  live_handles l = hs ->
  live_paths l =
  flat_map (fun n => match opened_path l n with Some p => [p] | None => [] end) hs.
Proof. intros <-. reflexivity. Qed.

Lemma flat_map_agree {A B} (f g : A -> list B) xs :
  (forall x, In x xs -> f x = g x) -> flat_map f xs = flat_map g xs.
Proof.
  induction xs as [|x xs IH]; intros H; cbn; [reflexivity|].
  rewrite (H x) by now left. f_equal. apply IH. intros y Hy. apply H. now right.
Qed.

Lemma live_paths_write_snoc l ev :
  closes_known l -> is_write ev = true ->
  live_paths (l ++ [ev]) = live_paths l /\ closes_known (l ++ [ev]).
Proof.
  intros Hk Hw.
  destruct (live_handles_writes [ev] l) as [Hl Hk']; [cbn; now rewrite Hw | assumption|].
  split; [|assumption].
  unfold live_paths. rewrite Hl. apply flat_map_agree.
  intros h Hh. apply live_handles_lt in Hh. now rewrite opened_path_app1.
Qed.

Lemma always_writes k (P : log -> Prop) evs : forall l,
  (forall l1 l2, live_paths l1 = live_paths l2 -> P l1 -> P l2) ->
  (k <= length l)%nat ->
  closes_known l -> forallb is_write evs = true ->
  always_from k P l -> always_from k P (l ++ evs).
Proof.
  induction evs as [|ev evs IH]; intros l HP Hk Hc Hw Hl.
  - now rewrite app_nil_r.
  - cbn [forallb] in Hw. apply andb_prop in Hw as [Hev Hevs].
    destruct (live_paths_write_snoc l ev Hc Hev) as [Hp Hc'].
    replace (l ++ ev :: evs) with ((l ++ [ev]) ++ evs) by now rewrite <- app_assoc.
    apply IH; try assumption.
    + rewrite length_app. lia.
    + apply always_snoc; [assumption|].
      apply (HP l); [now symmetry | now apply (always_now k)].
Qed.

Lemma one_segment_live_paths route index_name l1 l2 :
  live_paths l1 = live_paths l2 ->
  one_segment route index_name l1 -> one_segment route index_name l2.
Proof.
  intros H (i & Hi). exists i. unfold within in *. now rewrite <- H.
Qed.

Section Advance.

Variable encode : SentinelType -> Z -> list byte.
Variable index_name : Z -> string.

Lemma segment_open_in_segment fuel ls index first e l ls' l' k :
  closes_known l -> live_handles l = [] ->
  (k <= length l)%nat ->
  always_from k (one_segment (LoggerState.route_path ls) index_name) l ->
  LoggerState.segment_open encode index_name fuel ls index first e l = (Ret ls', l') ->
  in_segment ls' l' /\
  always_from k (one_segment (LoggerState.route_path ls) index_name) l' /\
  LoggerState.part ls' = index /\
  LoggerState.route_path ls' = LoggerState.route_path ls /\
  LoggerState.exit_signal ls' = LoggerState.exit_signal ls /\
  LoggerState.segment_path ls' =
    (LoggerState.route_path ls ++ "/" ++ index_name index)%string.
Proof.
  intros Hk Hl Hkl Hal H.
  apply segment_open_Ret in H as (r0 & r1 & r2 & r3 & evs & -> & Hr1 & Hr3 & Hevs & ->).
  cbn [LoggerState.with_segment LoggerState.part LoggerState.route_path
       LoggerState.exit_signal LoggerState.segment_path].
  set (route := LoggerState.route_path ls) in *.
  set (dir := (route ++ "/" ++ index_name index)%string).
  set (e0 := (Call_create_directories dir, r0)).
  set (e1 := (Call_safe_fopen (dir ++ "/rlog.bz2")%string "wb"%string, r1)).
  set (e2 := (Call_bzWriteOpen (Some (S (length l))) 9 0 30, r2)).
  set (e3 := (Call_safe_fopen (dir ++ "/qlog")%string "wb"%string, r3)).
  apply Z.eqb_neq in Hr1, Hr3.
  destruct (live_handles_snoc l e0 Hk I) as [L0 K0].
  destruct (live_handles_snoc _ e1 K0 I) as [L1 K1].
  destruct (live_handles_snoc _ e2 K1 I) as [L2 K2].
  destruct (live_handles_snoc _ e3 K2 I) as [L3 K3].
  destruct (live_handles_writes evs _ Hevs K3) as [L4 K4].
  replace (l ++ [e0; e1; e2; e3] ++ evs)
    with (((((l ++ [e0]) ++ [e1]) ++ [e2]) ++ [e3]) ++ evs)
    by (rewrite <- !app_assoc; reflexivity).
  set (h1 := S (length l)). set (h2 := (length l + 3)%nat).
  assert (H1 : length (l ++ [e0]) = h1) by (rewrite length_app; cbn [length]; lia).
  assert (H2 : length (((l ++ [e0]) ++ [e1]) ++ [e2]) = h2)
    by (rewrite !length_app; cbn [length]; lia).
  assert (L0' : live_handles (l ++ [e0]) = []) by (rewrite L0, Hl; reflexivity).
  assert (L1' : live_handles ((l ++ [e0]) ++ [e1]) = [h1]).
  { rewrite L1, L0'. unfold live_step. cbn [closed_handle opens e1 app].
    now rewrite Hr1, H1. }
  assert (L2' : live_handles (((l ++ [e0]) ++ [e1]) ++ [e2]) = [h1])
    by (rewrite L2, L1'; reflexivity).
  assert (L3' : live_handles ((((l ++ [e0]) ++ [e1]) ++ [e2]) ++ [e3]) = [h1; h2]).
  { rewrite L3, L2'. unfold live_step. cbn [closed_handle opens e3 app].
    now rewrite Hr3, H2. }
  assert (O1 : forall tl, opened_path (l ++ e0 :: e1 :: tl) h1
                          = Some (dir ++ "/rlog.bz2")%string).
  { intros tl. unfold opened_path, h1. rewrite nth_error_app2 by lia.
    replace (S (length l) - length l)%nat with 1%nat by lia.
    cbn [nth_error e1]. now rewrite Hr1. }
  assert (O2 : forall tl, opened_path (l ++ e0 :: e1 :: e2 :: e3 :: tl) h2
                          = Some (dir ++ "/qlog")%string).
  { intros tl. unfold opened_path, h2. rewrite nth_error_app2 by lia.
    replace (length l + 3 - length l)%nat with 3%nat by lia.
    cbn [nth_error e3]. now rewrite Hr3. }
  split; [|split; [|repeat split]].
  - exists h1, h2.
    split; [split; reflexivity|].
    split; [rewrite !length_app; cbn [length]; lia|].
    split; [assumption|].
    split; [now rewrite L4|].
    rewrite <- !app_assoc. cbn [app]. split; [apply O1 | apply O2].
  - apply always_writes; try assumption.
    + apply one_segment_live_paths.
    + rewrite !length_app. lia.
    + repeat apply always_snoc; try assumption; exists index; fold dir; unfold within.
      * left. now rewrite (live_paths_of _ _ L0').
      * right; left. rewrite (live_paths_of _ _ L1'). cbn [flat_map].
        rewrite <- !app_assoc. cbn [app]. now rewrite O1.
      * right; left. rewrite (live_paths_of _ _ L2'). cbn [flat_map].
        rewrite <- !app_assoc. cbn [app]. now rewrite O1.
      * right; right; right. rewrite (live_paths_of _ _ L3'). cbn [flat_map].
        rewrite <- !app_assoc. cbn [app]. now rewrite O1, (O2 []).
Qed.

Lemma segment_close_out fuel ls kind code e l ls' l' k route :
  in_segment ls l ->
  (exists i, LoggerState.segment_path ls = (route ++ "/" ++ index_name i)%string) ->
  (k <= length l)%nat ->
  always_from k (one_segment route index_name) l ->
  LoggerState.segment_close encode fuel ls kind code e l = (Ret ls', l') ->
  closes_known l' /\ live_handles l' = [] /\
  always_from k (one_segment route index_name) l' /\
  (length l <= length l')%nat /\
  LoggerState.part ls' = LoggerState.part ls /\
  LoggerState.route_path ls' = LoggerState.route_path ls /\
  LoggerState.exit_signal ls' = LoggerState.exit_signal ls.
Proof.
  intros (h1 & h2 & Hh & Hlt & Hk & Hl & Hp1 & Hp2) (i & Hseg) Hkl Hal H.
  apply (segment_close_Ret _ _ _ _ _ _ _ _ _ h1 h2 Hh) in H
    as (evs & r1 & r2 & r3 & -> & Hevs & ->).
  cbn [LoggerState.with_segment LoggerState.part LoggerState.route_path
       LoggerState.exit_signal].
  destruct (live_handles_writes evs _ Hevs Hk) as [L0 K0].
  set (e1 := (Call_bzWriteClose h1 0, r1)).
  set (e2 := (Call_safe_fflush (Some h2), r2)).
  set (e3 := (Call_fclose (Some h2), r3)).
  assert (O1 : closes_ok (length (l ++ evs)) e1)
    by (cbn; rewrite length_app; lia).
  destruct (live_handles_snoc _ e1 K0 O1) as [L1 K1].
  destruct (live_handles_snoc _ e2 K1 I) as [L2 K2].
  assert (O3 : closes_ok (length (((l ++ evs) ++ [e1]) ++ [e2])) e3)
    by (cbn; rewrite !length_app; cbn [length]; lia).
  destruct (live_handles_snoc _ e3 K2 O3) as [L3 K3].
  replace (l ++ evs ++ [e1; e2; e3])
    with ((((l ++ evs) ++ [e1]) ++ [e2]) ++ [e3])
    by (rewrite <- !app_assoc; reflexivity).
  assert (Hne : Nat.eqb h2 h1 = false) by (apply Nat.eqb_neq; lia).
  assert (L1' : live_handles ((l ++ evs) ++ [e1]) = [h2]).
  { rewrite L1, L0, Hl. unfold live_step. cbn [closed_handle opens e1 app filter].
    now rewrite Nat.eqb_refl, Hne. }
  assert (L2' : live_handles (((l ++ evs) ++ [e1]) ++ [e2]) = [h2])
    by (rewrite L2, L1'; reflexivity).
  assert (L3' : live_handles ((((l ++ evs) ++ [e1]) ++ [e2]) ++ [e3]) = []).
  { rewrite L3, L2'. unfold live_step. cbn [closed_handle opens e3 app filter].
    now rewrite Nat.eqb_refl. }
  assert (Q : forall tl, opened_path (l ++ tl) h2
                         = Some ((route ++ "/" ++ index_name i) ++ "/qlog")%string).
  { intros tl. rewrite opened_path_app1 by lia. now rewrite Hp2, Hseg. }
  split; [assumption|]. split; [assumption|]. split; [|repeat split].
  - repeat apply always_snoc.
    + apply always_writes; try assumption. apply one_segment_live_paths.
    + exists i. unfold within. right; right; left.
      rewrite (live_paths_of _ _ L1'). cbn [flat_map].
      rewrite <- app_assoc, Q. reflexivity.
    + exists i. unfold within. right; right; left.
      rewrite (live_paths_of _ _ L2'). cbn [flat_map].
      rewrite <- !app_assoc, Q. reflexivity.
    + exists i. unfold within. left. now rewrite (live_paths_of _ _ L3').
  - rewrite !length_app. lia.
Qed.

Lemma next_in_segment fuel ls e l p l' k :
  in_segment ls l ->
  (exists i, LoggerState.segment_path ls =
             (LoggerState.route_path ls ++ "/" ++ index_name i)%string) ->
  (k <= length l)%nat ->
  always_from k (one_segment (LoggerState.route_path ls) index_name) l ->
  LoggerState.next encode index_name fuel ls e l = (Ret p, l') ->
  fst p = true /\
  in_segment (snd p) l' /\
  always_from k (one_segment (LoggerState.route_path ls) index_name) l' /\
  (length l <= length l')%nat /\
  LoggerState.part (snd p) = LoggerState.part ls + 1 /\
  LoggerState.route_path (snd p) = LoggerState.route_path ls /\
  LoggerState.exit_signal (snd p) = LoggerState.exit_signal ls /\
  LoggerState.segment_path (snd p) =
    (LoggerState.route_path ls ++ "/" ++ index_name (LoggerState.part ls + 1))%string.
Proof.
  intros Hin Hseg Hkl Hal H. unfold LoggerState.next in H.
  apply bind_inv_Ret in H as (ls1 & l1 & Hc & H).
  apply bind_inv_Ret in H as (ls2 & l2 & Ho & H).
  injection H as <- <-. cbn [fst snd].
  apply (segment_close_out _ _ _ _ _ _ _ _ k _ Hin Hseg Hkl Hal) in Hc
    as (Hk & Hl & Hal1 & Hlen & Hp & Hr & Hx).
  pose proof Ho as Hlen2.
  apply (emits_Ret _ _ _ _ _ _ (emits_segment_open encode index_name _ _ _ _)) in Hlen2
    as (evs & Hl2 & _).
  rewrite <- Hr in Hal1.
  apply (segment_open_in_segment _ _ _ _ _ _ _ _ k Hk Hl ltac:(lia) Hal1) in Ho
    as (Hin2 & Hal2 & Hp2 & Hr2 & Hx2 & Hs2).
  rewrite Hp in *. rewrite Hr in *.
  repeat split; try assumption; try congruence.
  subst l2. rewrite length_app. lia.
Qed.

End Advance.

Section Sequence.

Variable encode : SentinelType -> Z -> list byte.
Variable index_name : Z -> string.

Lemma always_start (P : log -> Prop) l : P l -> always_from (length l) P l.
Proof.
  intros H n Hn. replace n with (length l) by lia. now rewrite firstn_all.
Qed.

Lemma ctor_in_segment fuel log_root name payload e l0 ls l1 :
  closes_known l0 -> live_handles l0 = [] ->
  LoggerState.ctor encode index_name fuel log_root name payload e l0 = (Ret ls, l1) ->
  in_segment ls l1 /\
  always_from (length l0) (one_segment (log_root ++ "/" ++ name)%string index_name) l1 /\
  (length l0 <= length l1)%nat /\
  LoggerState.route_path ls = (log_root ++ "/" ++ name)%string /\
  LoggerState.segment_path ls = ((log_root ++ "/" ++ name) ++ "/" ++ index_name 0)%string.
Proof.
  intros Hk0 Hl0 H. apply ctor_Ret_state in H as (r0 & r1 & la & _ & -> & H).
  set (route := (log_root ++ "/" ++ name)%string) in *.
  set (e0 := (Call_create_directories route, r0)) in *.
  set (e1 := (Call_create_file (lock_path log_root name), r1)) in *.
  destruct (live_handles_snoc l0 e0 Hk0 I) as [L0 K0].
  destruct (live_handles_snoc _ e1 K0 I) as [L1 K1].
  rewrite Hl0 in L0. rewrite L0 in L1.
  assert (Hal : always_from (length l0) (one_segment route index_name)
                            ((l0 ++ [e0]) ++ [e1])).
  { repeat apply always_snoc.
    - apply always_start. exists 0. left. now rewrite (live_paths_of _ _ Hl0).
    - exists 0. left. now rewrite (live_paths_of _ _ L0).
    - exists 0. left. now rewrite (live_paths_of _ _ L1). }
  replace (l0 ++ [e0; e1]) with ((l0 ++ [e0]) ++ [e1]) in H
    by (rewrite <- app_assoc; reflexivity).
  pose proof H as Hlen.
  apply (emits_Ret _ _ _ _ _ _ (emits_segment_open encode index_name _ _ _ _)) in Hlen
    as (evs & Hl1 & _).
  apply (segment_open_in_segment _ _ _ _ _ _ _ _ _ _ (length l0)) in H
    as (Hin & Hal' & Hp & Hr & Hx & Hs).
  - repeat split; try assumption. subst l1. rewrite !length_app. lia.
  - exact K1.
  - exact L1.
  - rewrite !length_app. lia.
  - exact Hal.
Qed.

Lemma next_part fuel ls e l p l' :
  active ls ->
  LoggerState.next encode index_name fuel ls e l = (Ret p, l') ->
  fst p = true /\ active (snd p) /\
  LoggerState.part (snd p) = LoggerState.part ls + 1.
Proof.
  intros (h1 & h2 & Hh) H. unfold LoggerState.next in H.
  apply bind_inv_Ret in H as (ls1 & l1 & Hc & H).
  apply bind_inv_Ret in H as (ls2 & l2 & Ho & H).
  injection H as <- <-. cbn [fst snd].
  apply segment_open_Ret in Ho as (? & ? & ? & ? & ? & _ & _ & _ & _ & ->).
  apply (segment_close_Ret _ _ _ _ _ _ _ _ _ h1 h2 Hh) in Hc
    as (? & ? & ? & ? & _ & _ & ->).
  split; [reflexivity|]. split; [|reflexivity].
  eexists _, _. split; reflexivity.
Qed.

Lemma segments_seen_indices fuel n : forall ls e l seen l2 k,
  active ls ->
  LoggerState.part ls = Z.of_nat k ->
  LoggerState.segments_seen encode index_name fuel n ls e l = (Ret seen, l2) ->
  seen = map Z.of_nat (seq k (S n)).
Proof.
  induction n as [|n IH]; intros ls e l seen l2 k Hact Hp H;
    cbn [LoggerState.segments_seen] in H.
  - injection H as <- <-. unfold LoggerState.segment. now rewrite Hp.
  - apply bind_inv_Ret in H as (p & l1 & Hn & H).
    apply (next_part _ _ _ _ _ _ Hact) in Hn as (Hok & Hact1 & Hp1).
    rewrite Hok in H.
    apply bind_inv_Ret in H as (rest & l3 & Hrest & H).
    injection H as <- <-.
    assert (Hp1' : LoggerState.part (snd p) = Z.of_nat (S k)) by lia.
    rewrite (IH _ _ _ _ _ _ Hact1 Hp1' Hrest).
    unfold LoggerState.segment. rewrite Hp. reflexivity.
Qed.

Lemma segments_seen_run fuel n : forall ls e l seen l2 k k0,
  in_segment ls l ->
  LoggerState.segment_path ls =
    (LoggerState.route_path ls ++ "/" ++ index_name (Z.of_nat k))%string ->
  (k0 <= length l)%nat ->
  always_from k0 (one_segment (LoggerState.route_path ls) index_name) l ->
  LoggerState.part ls = Z.of_nat k ->
  LoggerState.segments_seen encode index_name fuel n ls e l = (Ret seen, l2) ->
  always_from k0 (one_segment (LoggerState.route_path ls) index_name) l2 /\
  exists ls2,
    in_segment ls2 l2 /\
    LoggerState.segment_path ls2 =
      (LoggerState.route_path ls ++ "/" ++ index_name (Z.of_nat (k + n)))%string.
Proof.
  induction n as [|n IH]; intros ls e l seen l2 k k0 Hin Hs Hk0 Hal Hp H;
    cbn [LoggerState.segments_seen] in H.
  - injection H as <- <-. split; [assumption|].
    exists ls. rewrite Nat.add_0_r. now split.
  - apply bind_inv_Ret in H as (p & l1 & Hn & H).
    apply (next_in_segment _ _ _ _ _ _ _ _ k0 Hin
             (ex_intro _ (Z.of_nat k) Hs) Hk0 Hal) in Hn
      as (Hok & Hin1 & Hal1 & Hlen & Hp1 & Hr1 & _ & Hs1).
    rewrite Hok in H.
    apply bind_inv_Ret in H as (rest & l3 & Hrest & H).
    injection H as <- <-.
    assert (Hp1' : LoggerState.part (snd p) = Z.of_nat (S k)) by lia.
    rewrite Hp in Hs1. replace (Z.of_nat k + 1) with (Z.of_nat (S k)) in Hs1 by lia.
    rewrite <- Hr1 in Hs1, Hal1.
    destruct (IH _ _ _ _ _ _ k0 Hin1 Hs1 ltac:(lia) Hal1 Hp1' Hrest)
      as (Hal2 & ls2 & Hin2 & Hs2).
    rewrite Hr1 in Hal2, Hs2.
    split; [assumption|].
    exists ls2. replace (k + S n)%nat with (S k + n)%nat by lia. now split.
Qed.

(** C7.  Segment indices of a route.  After construction [segment()] is
    0.  Across [n] calls of [next()] that return, the values of [segment()]
    seen before each call and after the last one are 0, 1, ..., n: every
    index once, in order, none skipped.  When no sink was live before the
    route started: after construction and after each [next()] the sinks
    that still take writes are exactly the two of the current segment, and
    at every moment since the route started the sinks that take writes all
    belong to one segment, those of the segment before being torn down
    before the next ones are opened. *)
Theorem LoggerState_segment_sequence :
  forall fuel log_root name payload e l0 ls l1,
    LoggerState.ctor encode index_name fuel log_root name payload e l0 = (Ret ls, l1) ->
    let route := (log_root ++ "/" ++ name)%string in
    let dir := fun i : nat => (route ++ "/" ++ index_name (Z.of_nat i))%string in
    LoggerState.segment ls = 0 /\
    (forall fuel' n seen l2,
       LoggerState.segments_seen encode index_name fuel' n ls e l1 = (Ret seen, l2) ->
       seen = map Z.of_nat (seq 0 (S n))) /\
    (closes_known l0 -> live_handles l0 = [] ->
     live_paths l1 = [(dir O ++ "/rlog.bz2")%string; (dir O ++ "/qlog")%string] /\
     forall fuel' n seen l2,
       LoggerState.segments_seen encode index_name fuel' n ls e l1 = (Ret seen, l2) ->
       live_paths l2 = [(dir n ++ "/rlog.bz2")%string; (dir n ++ "/qlog")%string] /\
       always_from (length l0) (one_segment route index_name) l2).
Proof.
  intros fuel log_root name payload e l0 ls l1 H route dir.
  assert (Hp : LoggerState.part ls = 0).
  { pose proof H as H'. apply ctor_Ret_state in H' as (r0 & r1 & la & _ & _ & H').
    apply segment_open_Ret in H' as (? & ? & ? & ? & ? & _ & _ & _ & _ & ->).
    reflexivity. }
  split; [exact Hp|]. split.
  - intros fuel' n seen l2 Hrun. pose proof H as H'.
    apply ctor_holds in H' as (_ & Hact).
    apply (segments_seen_indices fuel' n ls e l1 seen l2 O Hact Hp Hrun).
  - intros Hk0 Hl0.
    apply ctor_in_segment in H as (Hin & Hal & Hlen & Hr & Hs); try assumption.
    fold route in Hal, Hr, Hs. split.
    + rewrite (in_segment_live_paths _ _ Hin), Hs. reflexivity.
    + intros fuel' n seen l2 Hrun.
      rewrite <- Hr in Hal.
      apply (segments_seen_run fuel' n ls e l1 seen l2 O (length l0) Hin) in Hrun
        as (Hal2 & ls2 & Hin2 & Hs2); try assumption.
      * rewrite Hr in Hal2, Hs2. split; [|assumption].
        rewrite (in_segment_live_paths _ _ Hin2), Hs2. reflexivity.
      * now rewrite Hr, Hs.
Qed.

End Sequence.

(** ** What a write leaves in the sinks *)

Lemma bz_loop_Ret fuel : forall b data size e l w l',
  0 < size ->
  RawFile.bz_loop fuel b data size 0 1 e l = (Ret w, l') ->
  let c := bz_call b data size in
  exists n,
    l' = l ++ attempts e l c (S n) /\
    (forall i, (i < n)%nat -> interrupted (e (length l + i)%nat c) = true) /\
    interrupted (e (length l + n)%nat c) = false /\
    w = if rv (e (length l + n)%nat c) =? BZ_OK then size else 0.
Proof.
  induction fuel as [|fuel IH]; intros b data size e l w l' Hsize H c.
  - rewrite bz_loop_out_of_fuel in H by assumption. discriminate.
  - rewrite bz_loop_step in H by assumption. fold c in H.
    destruct (interrupted (e (length l) c)) eqn:Hi.
    + apply IH in H as (n & -> & Hint & Hlast & ->); [|assumption]. fold c in Hint, Hlast.
      exists (S n). rewrite length_app in *. cbn [length] in *.
      replace (length l + S n)%nat with (length l + 1 + n)%nat by lia.
      repeat split; try assumption.
      * rewrite (attempts_S e l c (S n)), <- app_assoc. reflexivity.
      * intros i Hlt. destruct i as [|i]; [now rewrite Nat.add_0_r|].
        replace (length l + S i)%nat with (length l + 1 + i)%nat by lia.
        apply Hint. lia.
    + exists O. rewrite Nat.add_0_r, Hi.
      assert (Hw : (if rv (e (length l) c) =? BZ_OK then (Ret size, l ++ [(c, e (length l) c)])
                    else (Ret 0, l ++ [(c, e (length l) c)])) =
                   (Ret (if rv (e (length l) c) =? BZ_OK then size else 0),
                    l ++ [(c, e (length l) c)]))
        by now destruct (rv _ =? BZ_OK).
      rewrite Hw in H. injection H as <- <-.
      repeat split; try reflexivity.
      * unfold attempts. cbn. now rewrite Nat.add_0_r.
      * intros i Hlt. lia.
Qed.

Lemma flat_map_all_nil {A B} (f : A -> list B) xs :
  (forall x, In x xs -> f x = []) -> flat_map f xs = [].
Proof.
  induction xs as [|x xs IH]; intros H; cbn; [reflexivity|].
  rewrite (H x) by now left. apply IH. intros y Hy. apply H. now right.
Qed.

(** What a compressed write that returned has fed to the compressor: the
    parts the interrupted calls had taken, then the buffer. *)
Lemma write_bz_Ret_plain fuel f b (data : list byte) e l l' :
  Z.of_nat (length data) < 2 ^ 31 ->
  RawFile.write fuel (RawFile.mk f (Some b)) data (Z.of_nat (length data)) e l = (Ret tt, l') ->
  exists n,
    let c := Call_bzWrite b data (Z.of_nat (length data)) in
    bz_plain b l' = bz_plain b l ++ flat_map (bz_taken b) (attempts e l c n) ++ data /\
    (forall i, (i < n)%nat -> interrupted (e (length l + i)%nat c) = true).
Proof.
  intros Hlen H. rewrite write_bz_unfold in H.
  destruct (RawFile.bz_loop fuel b data (Z.of_nat (length data)) 0 1 e l)
    as [[w| |] l1] eqn:Hloop; try discriminate.
  destruct (w =? Z.of_nat (length data)) eqn:Hw; [|discriminate].
  injection H as <-. apply Z.eqb_eq in Hw. subst w.
  destruct data as [|x data].
  - exists O. cbn [length Z.of_nat] in Hloop. rewrite bz_loop_done in Hloop.
    injection Hloop as <-. cbn. rewrite !app_nil_r. split; [reflexivity|].
    intros i Hi. lia.
  - apply bz_loop_Ret in Hloop as (n & -> & Hint & _ & Hok);
      [|cbn [length]; lia].
    rewrite bz_call_whole in * by assumption.
    set (c := Call_bzWrite b (x :: data) (Z.of_nat (length (x :: data)))) in *.
    destruct (rv (e (length l + n)%nat c) =? BZ_OK) eqn:Hrv;
      [|cbn [length] in Hok; lia].
    exists n. cbv zeta. fold c. split; [|exact Hint].
    rewrite attempts_snoc. unfold bz_plain. rewrite !flat_map_app.
    cbn [flat_map bz_taken c]. fold c. rewrite Nat.eqb_refl, Hrv, app_nil_r.
    reflexivity.
Qed.

(** A compressed write leaves every uncompressed file as it was. *)
Lemma write_bz_file_bytes fuel f b data size e l h :
  file_bytes h (snd (RawFile.write fuel (RawFile.mk f (Some b)) data size e l)) =
  file_bytes h l.
Proof.
  destruct (emits_write_bz fuel f b data size e l) as (evs & -> & Hevs).
  unfold file_bytes. rewrite flat_map_app.
  rewrite (flat_map_all_nil (fwrite_taken h) evs); [apply app_nil_r|].
  intros [c r] Hin. rewrite forallb_forall in Hevs. specialize (Hevs _ Hin).
  destruct c; cbn in Hevs; try discriminate. reflexivity.
Qed.

(** When no interrupted call had taken a byte, a compressed write that
    returns has added the buffer to the stream, once. *)
Lemma write_bz_untaken_exact fuel f b (data : list byte) e l l' :
  fits_int data ->
  (forall n c, interrupted (e n c) = true -> r_taken (e n c) = O) ->
  RawFile.write fuel (RawFile.mk f (Some b)) data (Z.of_nat (length data)) e l = (Ret tt, l') ->
  bz_plain b l' = bz_plain b l ++ data.
Proof.
  intros Hfit Hnone H.
  apply write_bz_Ret_plain in H as (n & -> & Hint); [|exact Hfit].
  rewrite flat_map_all_nil; [reflexivity|].
  intros ev Hev. apply in_map_iff in Hev as (i & <- & Hi). apply in_seq in Hi.
  specialize (Hint i ltac:(lia)). cbn [bz_taken]. rewrite Nat.eqb_refl.
  rewrite (Hnone _ _ Hint). unfold interrupted in Hint.
  apply andb_prop in Hint as [Hio _]. apply Z.eqb_eq in Hio. rewrite Hio.
  reflexivity.
Qed.

Lemma write_plain_Ret_bytes fuel h (data : list byte) e l l' :
  RawFile.write fuel (RawFile.mk (Some h) None) data (Z.of_nat (length data)) e l
    = (Ret tt, l') ->
  file_bytes h l' = file_bytes h l ++ data /\
  (forall b, bz_plain b l' = bz_plain b l).
Proof.
  rewrite write_plain_unfold. cbv zeta. rewrite region_whole.
  destruct (rv _ =? Z.of_nat (length data)) eqn:Hrv; [|discriminate].
  intros H. injection H as <-. apply Z.eqb_eq in Hrv. split.
  - unfold file_bytes. rewrite flat_map_app. cbn [flat_map fwrite_taken].
    rewrite Nat.eqb_refl, Hrv, Z.mul_1_r, Nat2Z.id, firstn_all, app_nil_r.
    reflexivity.
  - intros b. unfold bz_plain. rewrite flat_map_app. cbn. now rewrite app_nil_r.
Qed.


(** ** When nothing goes wrong *)

Lemma chunks_app t l evs : chunks t (l ++ evs) = chunks t l ++ chunks t evs.
Proof. unfold chunks. now rewrite map_app, filter_app. Qed.

Lemma calm_write_bz e fuel f b (data : list byte) l :
  calm e ->
  Z.of_nat (length data) < 2 ^ 31 ->
  exists evs,
    RawFile.write (S fuel) (RawFile.mk f (Some b)) data (Z.of_nat (length data)) e l
      = (Ret tt, l ++ evs) /\
    forallb is_write evs = true /\
    chunks (bz_taken b) evs = filter nonempty [data] /\
    (forall h, chunks (fwrite_taken h) evs = []).
Proof.
  intros Hcalm Hlen. rewrite write_bz_unfold.
  destruct data as [|x data].
  - exists []. cbn [length Z.of_nat]. rewrite bz_loop_done, app_nil_r.
    repeat split.
  - rewrite bz_loop_step by (cbn [length]; lia).
    rewrite bz_call_whole by assumption.
    set (c := Call_bzWrite b (x :: data) (Z.of_nat (length (x :: data)))).
    pose proof (Hcalm (length l) c) as Hok. cbn [succeeds c] in Hok.
    assert (Hi : interrupted (e (length l) c) = false).
    { unfold interrupted. apply Z.eqb_eq in Hok. rewrite Hok. reflexivity. }
    rewrite Hi, Hok, Z.eqb_refl.
    exists [(c, e (length l) c)]. repeat split.
    + unfold chunks. cbn [map bz_taken c]. fold c. now rewrite Nat.eqb_refl, Hok.
Qed.

Lemma calm_write_plain e fuel h (data : list byte) l :
  calm e ->
  exists evs,
    RawFile.write fuel (RawFile.mk (Some h) None) data (Z.of_nat (length data)) e l
      = (Ret tt, l ++ evs) /\
    forallb is_write evs = true /\
    chunks (fwrite_taken h) evs = filter nonempty [data] /\
    (forall b, chunks (bz_taken b) evs = []).
Proof.
  intros Hcalm. rewrite write_plain_unfold. cbv zeta. rewrite region_whole.
  set (c := Call_safe_fwrite (Some h) data 1 (Z.of_nat (length data))).
  pose proof (Hcalm (length l) c) as Hok. cbn [succeeds c] in Hok.
  rewrite Hok. exists [(c, e (length l) c)]. repeat split.
  unfold chunks. cbn [map fwrite_taken c]. fold c.
  apply Z.eqb_eq in Hok.
  now rewrite Nat.eqb_refl, Hok, Z.mul_1_r, Nat2Z.id, firstn_all.
Qed.

Lemma calm_LoggerState_write e fuel ls h1 h2 (data : list byte) in_qlog l :
  calm e -> holds ls h1 h2 ->
  Z.of_nat (length data) < 2 ^ 31 ->
  exists evs,
    LoggerState.write (S fuel) ls data (Z.of_nat (length data)) in_qlog e l
      = (Ret tt, l ++ evs) /\
    forallb is_write evs = true /\
    chunks (bz_taken h1) evs = filter nonempty [data] /\
    chunks (fwrite_taken h2) evs = if in_qlog then filter nonempty [data] else [].
Proof.
  intros Hcalm [Hr Hq] Hlen. unfold LoggerState.write. rewrite Hr, Hq.
  cbn [LoggerState.sink_write].
  destruct (calm_write_bz e fuel (Some h1) h1 data l Hcalm Hlen)
    as (ev1 & H1 & W1 & B1 & F1).
  rewrite (bind_Ret _ _ _ _ _ _ H1).
  destruct in_qlog.
  - destruct (calm_write_plain e (S fuel) h2 data (l ++ ev1) Hcalm)
      as (ev2 & H2 & W2 & F2 & B2).
    rewrite H2. exists (ev1 ++ ev2). rewrite app_assoc, forallb_app, W1, W2.
    rewrite !chunks_app, B1, B2, F1, F2, app_nil_r. repeat split.
  - exists ev1. unfold ret. repeat split; auto.
Qed.

Section Routing.

Variable encode : SentinelType -> Z -> list byte.
Variable index_name : Z -> string.



End Routing.

(** ** The exit signal *)

Section ExitSignal.

Variable encode : SentinelType -> Z -> list byte.
Variable index_name : Z -> string.

Lemma run_op_state fuel o ls e l ls' l' :
  (exists h1 h2, holds ls h1 h2) ->
  LoggerState.run_op encode index_name fuel o ls e l = (Ret ls', l') ->
  LoggerState.exit_signal ls' = last_signal [o] (LoggerState.exit_signal ls) /\
  (exists h1 h2, holds ls' h1 h2).
Proof.
  intros Hh H. destruct o; cbn [LoggerState.run_op] in H.
  - apply bind_inv_Ret in H as ([] & la & _ & H). injection H as <- <-. now split.
  - apply bind_inv_Ret in H as ([ok ls2] & la & Hn & H).
    cbn [fst snd] in H. destruct ok; [|discriminate]. injection H as <- <-.
    unfold LoggerState.next in Hn.
    apply bind_inv_Ret in Hn as (ls1 & lb & Hc & Hn).
    apply bind_inv_Ret in Hn as (ls3 & lc & Ho & Hn).
    injection Hn as <- <-.
    apply segment_open_Ret in Ho as (? & ? & ? & ? & ? & _ & _ & _ & _ & ->).
    destruct Hh as (h1 & h2 & Hh).
    apply (segment_close_Ret _ _ _ _ _ _ _ _ _ h1 h2 Hh) in Hc
      as (? & ? & ? & ? & _ & _ & ->).
    split; [reflexivity|]. eexists _, _. split; reflexivity.
  - injection H as <- <-. split; [reflexivity|].
    destruct Hh as (h1 & h2 & Hr & Hq). now exists h1, h2.
Qed.

Lemma run_ops_state fuel os : forall ls e l ls' l',
  (exists h1 h2, holds ls h1 h2) ->
  LoggerState.run_ops encode index_name fuel os ls e l = (Ret ls', l') ->
  LoggerState.exit_signal ls' = last_signal os (LoggerState.exit_signal ls) /\
  (exists h1 h2, holds ls' h1 h2).
Proof.
  induction os as [|o os IH]; intros ls e l ls' l' Hh H; cbn [LoggerState.run_ops] in H.
  - injection H as <- <-. now split.
  - apply bind_inv_Ret in H as (ls1 & l1 & H1 & H).
    apply run_op_state in H1 as (Hx & Hh1); [|assumption].
    apply IH in H as (Hx' & Hh'); [|assumption].
    split; [|assumption]. rewrite Hx', Hx. reflexivity.
Qed.

Lemma chunks_no_write t evs :
  forallb (fun ev => negb (is_write ev)) evs = true ->
  (forall ev, is_write ev = false -> t ev = []) ->
  chunks t evs = [].
Proof.
  intros H Ht. induction evs as [|ev evs IH]; [reflexivity|].
  cbn [forallb] in H. apply andb_prop in H as [Hev Hevs].
  unfold chunks in *. cbn [map filter]. rewrite Ht by now apply negb_true_iff.
  cbn. now apply IH.
Qed.

Lemma bz_taken_no_write b ev : is_write ev = false -> bz_taken b ev = [].
Proof. destruct ev as [[] r]; cbn; congruence. Qed.

Lemma fwrite_taken_no_write h ev : is_write ev = false -> fwrite_taken h ev = [].
Proof. destruct ev as [[] r]; cbn; congruence. Qed.

Lemma calm_RawFile_dtor e rf l :
  calm e -> exists l', RawFile.dtor rf e l = (Ret tt, l') /\ quiet_suffix l l'.
Proof.
  intros Hcalm. destruct rf as [f [b|]].
  - rewrite dtor_bz_unfold. cbv zeta.
    pose proof (Hcalm (length l) (Call_bzWriteClose b 0)) as Hok.
    cbn [succeeds] in Hok. rewrite Hok.
    eexists. split; [reflexivity|]. eexists. split; reflexivity.
  - rewrite dtor_plain_unfold. cbv zeta.
    pose proof (Hcalm (S (length l)) (Call_fclose f)) as Hok.
    cbn [succeeds] in Hok. rewrite Hok.
    eexists. split; [reflexivity|]. eexists. split; reflexivity.
Qed.

Lemma quiet_suffix_chunks t l l' :
  quiet_suffix l l' ->
  (forall ev, is_write ev = false -> t ev = []) ->
  chunks t l' = chunks t l.
Proof.
  intros (evs & -> & Hq) Ht.
  rewrite chunks_app, (chunks_no_write t evs) by assumption. apply app_nil_r.
Qed.

(** Tearing a route down when no call fails. *)
Lemma calm_dtor e fuel ls h1 h2 l :
  calm e -> holds ls h1 h2 ->
  let frame := encode END_OF_ROUTE (LoggerState.exit_signal ls) in
  fits_int frame ->
  exists l',
    LoggerState.dtor encode (S fuel) ls e l = (Ret tt, l') /\
    chunks (bz_taken h1) l' = chunks (bz_taken h1) l ++ filter nonempty [frame] /\
    chunks (fwrite_taken h2) l' = chunks (fwrite_taken h2) l ++ filter nonempty [frame].
Proof.
  intros Hcalm Hh frame Hfit. pose proof Hh as [Hr Hq].
  destruct (calm_LoggerState_write e fuel ls h1 h2 frame true l Hcalm Hh Hfit)
    as (ev1 & H1 & W1 & B1 & F1).
  destruct (calm_RawFile_dtor e (RawFile.mk (Some h1) (Some h1)) (l ++ ev1) Hcalm)
    as (lb & H2 & Q2).
  destruct (calm_RawFile_dtor e (RawFile.mk (Some h2) None) lb Hcalm)
    as (lc & H3 & Q3).
  pose proof (Hcalm (length lc) (Call_remove (LoggerState.lock_file ls))) as Hok.
  cbn [succeeds] in Hok.
  exists (lc ++ [(Call_remove (LoggerState.lock_file ls),
                  e (length lc) (Call_remove (LoggerState.lock_file ls)))]).
  split.
  - unfold LoggerState.dtor, LoggerState.segment_close, LoggerState.write_frame.
    fold frame. rewrite Hr, Hq. cbn [LoggerState.sink_close].
    unfold bind. rewrite H1, H2, H3. unfold ret at 1. rewrite ext_run, Hok.
    reflexivity.
  - assert (Hrm : quiet_suffix lc (lc ++ [(Call_remove (LoggerState.lock_file ls),
                    e (length lc) (Call_remove (LoggerState.lock_file ls)))]))
      by (eexists; split; reflexivity).
    rewrite !(quiet_suffix_chunks _ _ _ Hrm), !(quiet_suffix_chunks _ _ _ Q3),
      !(quiet_suffix_chunks _ _ _ Q2)
      by auto using bz_taken_no_write, fwrite_taken_no_write.
    rewrite !chunks_app, B1, F1. split; reflexivity.
Qed.

Lemma last_cons_default {A} (l : list A) : forall x d, last (x :: l) d = last l x.
Proof.
  induction l as [|y l IH]; intros x d; [reflexivity|].
  change (last (x :: y :: l) d) with (last (y :: l) d).
  now rewrite !IH.
Qed.

Lemma setExitSignal_fold codes : forall s,
  LoggerState.exit_signal
    (fold_left (fun s code => LoggerState.setExitSignal code s) codes s) =
  last codes (LoggerState.exit_signal s).
Proof.
  induction codes as [|code codes IH]; intros s; [reflexivity|].
  cbn [fold_left]. rewrite IH. cbn [LoggerState.setExitSignal LoggerState.exit_signal].
  symmetry. apply last_cons_default.
Qed.

(** C8.  [setExitSignal].  A new route manager has exit signal 0.
    [setExitSignal(code)] stores [code] and touches nothing else, so after
    any number of calls the signal on record is the argument of the last
    one.  On a route: after construction the signal is 0; after any
    operations of the caller it is the argument of the last [setExitSignal]
    among them, or 0 when there was none; and that value is the one the
    destructor hands to the sentinel codec: when no call fails, the
    end-of-route sentinel carrying it is the last thing both logs receive. *)
Theorem LoggerState_setExitSignal_last_wins :
  LoggerState.exit_signal LoggerState.fresh = 0 /\
  (forall s code,
     LoggerState.setExitSignal code s =
     LoggerState.mk (LoggerState.part s) code (LoggerState.route_path s)
       (LoggerState.route_name s) (LoggerState.segment_path s)
       (LoggerState.lock_file s) (LoggerState.init_data s)
       (LoggerState.rlog s) (LoggerState.qlog s)) /\
  (forall codes s,
     LoggerState.exit_signal
       (fold_left (fun s code => LoggerState.setExitSignal code s) codes s) =
     last codes (LoggerState.exit_signal s)) /\
  (forall fuel log_root name payload e l0 ls l1,
     LoggerState.ctor encode index_name fuel log_root name payload e l0 = (Ret ls, l1) ->
     LoggerState.exit_signal ls = 0 /\
     forall fuel' os ls' l2,
       LoggerState.run_ops encode index_name fuel' os ls e l1 = (Ret ls', l2) ->
       let code := last_signal os 0 in
       let frame := encode END_OF_ROUTE code in
       LoggerState.exit_signal ls' = code /\
       (calm e -> fits_int frame ->
        forall fuel'',
          let down := LoggerState.dtor encode (S fuel'') ls' e l2 in
          fst down = Ret tt /\
          sink_chunks (LoggerState.rlog ls') (snd down) =
            sink_chunks (LoggerState.rlog ls') l2 ++ filter nonempty [frame] /\
          sink_chunks (LoggerState.qlog ls') (snd down) =
            sink_chunks (LoggerState.qlog ls') l2 ++ filter nonempty [frame])).
Proof.
  split; [reflexivity|]. split; [reflexivity|]. split; [apply setExitSignal_fold|].
  intros fuel log_root name payload e l0 ls l1 Hctor.
  apply ctor_holds in Hctor as (Hx0 & Hh0).
  split; [assumption|].
  intros fuel' os ls' l2 Hrun code frame.
  apply run_ops_state in Hrun as (Hx & h1 & h2 & Hh); [|assumption].
  rewrite Hx0 in Hx. split; [exact Hx|].
  intros Hcalm Hfit fuel'' down. subst down frame code. rewrite <- Hx in *.
  destruct (calm_dtor e fuel'' ls' h1 h2 l2 Hcalm Hh Hfit) as (l3 & Hd & Hb & Hf).
  rewrite Hd. cbn [fst snd]. destruct Hh as [Hr Hq].
  unfold sink_chunks. rewrite Hr, Hq. cbn [RawFile.bz_file RawFile.file].
  rewrite Hb, Hf. repeat split.
Qed.

End ExitSignal.

(** ** A route on which no call fails runs to its end *)

Lemma returns_ret {A} (Q : A -> Prop) a e : Q a -> returns Q (ret a) e.
Proof. intros H l. now exists a, l. Qed.

Lemma returns_bind {A B} (P : A -> Prop) (Q : B -> Prop) (m : M A) (k : A -> M B) e :
  returns P m e -> (forall a, P a -> returns Q (k a) e) -> returns Q (bind m k) e.
Proof.
  intros Hm Hk l. destruct (Hm l) as (a & l1 & H1 & Ha).
  destruct (Hk a Ha l1) as (b & l2 & H2 & Hb).
  exists b, l2. split; [|assumption]. unfold bind. now rewrite H1.
Qed.

Lemma returns_weaken {A} (P Q : A -> Prop) (m : M A) e :
  (forall a, P a -> Q a) -> returns P m e -> returns Q m e.
Proof.
  intros HPQ Hm l. destruct (Hm l) as (a & l' & H & Ha). exists a, l'. auto.
Qed.

Lemma returns_ext_succeeds c e :
  calm e -> returns (fun r => succeeds c r = true) (ext c) e.
Proof. intros Hcalm l. eexists _, _. split; [apply ext_run | apply Hcalm]. Qed.

Lemma returns_assert b e : b = true -> returns (fun _ => True) (assert b) e.
Proof. intros ->. now apply returns_ret. Qed.

Lemma calm_RawFile_write_returns e fuel rf data size :
  calm e -> 0 <= size ->
  returns (fun _ => True) (RawFile.write (S fuel) rf data size) e.
Proof.
  intros Hcalm Hsize l. destruct rf as [f [b|]].
  - rewrite write_bz_unfold. destruct (Z.eq_dec size 0) as [->|Hne].
    + rewrite bz_loop_done. now eexists _, _.
    + rewrite bz_loop_step by lia.
      pose proof (Hcalm (length l) (bz_call b data size)) as Hok.
      unfold bz_call in Hok. cbn [succeeds] in Hok. fold (bz_call b data size) in Hok.
      unfold interrupted. rewrite Hok. apply Z.eqb_eq in Hok. rewrite Hok.
      cbn [Z.eqb BZ_OK BZ_IO_ERROR andb]. rewrite Z.eqb_refl. now eexists _, _.
  - rewrite write_plain_unfold. cbv zeta.
    pose proof (Hcalm (length l) (Call_safe_fwrite f (region data 0 size) 1 size)) as Hok.
    cbn [succeeds] in Hok. rewrite Hok. now eexists _, _.
Qed.

Lemma calm_RawFile_ctor_returns e path (use_bz2 : bool) :
  calm e ->
  returns (fun rf => exists h, rf = RawFile.mk (Some h) (if use_bz2 then Some h else None))
          (RawFile.ctor path use_bz2) e.
Proof.
  intros Hcalm l. rewrite ctor_unfold. cbv zeta.
  pose proof (Hcalm (length l)
                (Call_safe_fopen (path ++ (if use_bz2 then ".bz2" else ""))%string
                                 "wb"%string)) as H1.
  cbn [succeeds] in H1. apply negb_true_iff in H1. rewrite H1.
  destruct use_bz2.
  - pose proof (Hcalm (S (length l)) (Call_bzWriteOpen (Some (length l)) 9 0 30)) as H2.
    cbn [succeeds] in H2. rewrite H2. eexists _, _. split; [reflexivity|]. now eexists.
  - eexists _, _. split; [reflexivity|]. now eexists.
Qed.

Lemma calm_RawFile_dtor_returns e rf :
  calm e -> returns (fun _ => True) (RawFile.dtor rf) e.
Proof.
  intros Hcalm l. destruct (calm_RawFile_dtor e rf l Hcalm) as (l' & H & _).
  now exists tt, l'.
Qed.

Section Completes.

Variable encode : SentinelType -> Z -> list byte.
Variable index_name : Z -> string.

Lemma calm_write_returns e fuel ls data in_qlog :
  calm e -> active ls ->
  returns (fun _ => True)
          (LoggerState.write (S fuel) ls data (Z.of_nat (length data)) in_qlog) e.
Proof.
  intros Hcalm (h1 & h2 & Hr & Hq). unfold LoggerState.write. rewrite Hr, Hq.
  cbn [LoggerState.sink_write].
  eapply returns_bind; [apply calm_RawFile_write_returns; [assumption | lia]|].
  intros _ _. destruct in_qlog.
  - apply calm_RawFile_write_returns; [assumption | lia].
  - now apply returns_ret.
Qed.

Lemma calm_segment_open_returns e fuel ls index first :
  calm e ->
  returns active (LoggerState.segment_open encode index_name (S fuel) ls index first) e.
Proof.
  intros Hcalm. unfold LoggerState.segment_open.
  eapply returns_bind; [now apply returns_ext_succeeds|].
  intros r Hr. cbn [succeeds] in Hr.
  eapply returns_bind; [now apply returns_assert|]. intros _ _.
  eapply returns_bind; [now apply calm_RawFile_ctor_returns|]. intros full (h1 & ->).
  eapply returns_bind; [now apply calm_RawFile_ctor_returns|]. intros quick (h2 & ->).
  assert (Hact : active (LoggerState.with_segment ls index
                           (LoggerState.route_path ls ++ "/" ++ index_name index)%string
                           (Some (RawFile.mk (Some h1) (Some h1)))
                           (Some (RawFile.mk (Some h2) None))))
    by (exists h1, h2; split; reflexivity).
  eapply returns_bind.
  { destruct first; [now apply calm_write_returns | now apply returns_ret]. }
  intros _ _.
  eapply returns_bind; [now apply calm_write_returns|]. intros _ _.
  eapply returns_bind; [now apply calm_write_returns|]. intros _ _.
  now apply returns_ret.
Qed.

Lemma calm_segment_close_returns e fuel ls kind code :
  calm e -> active ls ->
  returns (fun _ => True) (LoggerState.segment_close encode (S fuel) ls kind code) e.
Proof.
  intros Hcalm Hact. unfold LoggerState.segment_close.
  eapply returns_bind; [now apply calm_write_returns|]. intros _ _.
  destruct Hact as (h1 & h2 & Hr & Hq). rewrite Hr, Hq. cbn [LoggerState.sink_close].
  eapply returns_bind; [now apply calm_RawFile_dtor_returns|]. intros _ _.
  eapply returns_bind; [now apply calm_RawFile_dtor_returns|]. intros _ _.
  now apply returns_ret.
Qed.

Lemma calm_next_returns e fuel ls :
  calm e -> active ls ->
  returns (fun p => fst p = true /\ active (snd p))
          (LoggerState.next encode index_name (S fuel) ls) e.
Proof.
  intros Hcalm Hact. unfold LoggerState.next.
  eapply returns_bind; [now apply calm_segment_close_returns|]. intros ls1 _.
  eapply returns_bind; [now apply calm_segment_open_returns|]. intros ls2 Hact2.
  now apply returns_ret.
Qed.

(** When no call fails the constructor returns, every sequence of
    operations of the caller returns, and then the destructor returns. *)
Lemma calm_route_completes e fuel log_root name payload os :
  calm e ->
  returns (fun _ => True)
    (ls <- LoggerState.ctor encode index_name (S fuel) log_root name payload ;;
     ls' <- LoggerState.run_ops encode index_name (S fuel) os ls ;;
     LoggerState.dtor encode (S fuel) ls') e.
Proof.
  intros Hcalm.
  eapply returns_bind with (P := active).
  { unfold LoggerState.ctor.
    eapply returns_bind; [now apply returns_ext_succeeds|].
    intros r Hr. cbn [succeeds] in Hr.
    eapply returns_bind; [now apply returns_assert|]. intros _ _.
    eapply returns_bind; [now apply returns_ext_succeeds|].
    intros r' Hr'. cbn [succeeds] in Hr'.
    eapply returns_bind; [now apply returns_assert|]. intros _ _.
    now apply calm_segment_open_returns. }
  intros ls Hact.
  eapply returns_bind with (P := active).
  { clear log_root name payload. revert ls Hact.
    induction os as [|o os IH]; intros ls Hact; cbn [LoggerState.run_ops].
    - now apply returns_ret.
    - eapply returns_bind with (P := active); [|intros ls1 H1; now apply IH].
      destruct o; cbn [LoggerState.run_op].
      + eapply returns_bind; [now apply calm_write_returns|]. intros _ _.
        now apply returns_ret.
      + eapply returns_bind; [now apply calm_next_returns|]. intros p [Hok Hp].
        rewrite Hok. now apply returns_ret.
      + apply returns_ret. destruct Hact as (h1 & h2 & Hr & Hq). now exists h1, h2. }
  intros ls' Hact'. unfold LoggerState.dtor.
  eapply returns_bind; [now apply calm_segment_close_returns|]. intros _ _.
  eapply returns_bind; [now apply returns_ext_succeeds|].
  intros r Hr. cbn [succeeds] in Hr.
  now apply returns_assert.
Qed.

End Completes.

(** ** The theorems on a concrete route *)

Lemma calm_env_calm : calm calm_env.
Proof. intros n []; cbn; try reflexivity. apply Z.eqb_refl. Qed.

Lemma demo_ctor_runs :
  LoggerState.ctor demo_encode demo_index_name 1 "/data" "r1" [x2a] calm_env [] =
  (Ret demo_state, demo_log).
Proof. vm_compute. reflexivity. Qed.

Lemma LoggerState_lock_file_lifetime_witness :
  path_exists (lock_path "/data" "r1") demo_log = true /\
  path_exists (lock_path "/data" "r1")
    (snd (LoggerState.dtor demo_encode 1 demo_state calm_env demo_log)) = false.
Proof.
  pose proof (LoggerState_lock_file_lifetime demo_encode demo_index_name
                1 "/data" "r1" [x2a] calm_env [] demo_state demo_log
                ltac:(vm_compute; reflexivity)) as (_ & Hpresent & Hrest).
  split; [exact Hpresent|].
  destruct (Hrest 1%nat []) as (_ & Hdown).
  destruct (Hdown demo_state eq_refl 1%nat) as (Hgone & _).
  apply Hgone. vm_compute. reflexivity.
Defined.

Lemma LoggerState_segment_sequence_witness :
  let run := LoggerState.segments_seen demo_encode demo_index_name 1 2
               demo_state calm_env demo_log in
  fst run = Ret [0; 1; 2] /\
  live_paths (snd run) = ["/data/r1/2/rlog.bz2"%string; "/data/r1/2/qlog"%string] /\
  always_from 0 (one_segment "/data/r1" demo_index_name) (snd run).
Proof.
  intros run.
  destruct (LoggerState_segment_sequence demo_encode demo_index_name
              1 "/data" "r1" [x2a] calm_env [] demo_state demo_log
              ltac:(vm_compute; reflexivity)) as (_ & Hseen & Hlive).
  assert (Hrun : run = (Ret [0; 1; 2], snd run)) by (vm_compute; reflexivity).
  destruct (Hlive ltac:(intros n _; split; reflexivity) eq_refl) as (_ & Hlive2).
  destruct (Hlive2 1%nat 2%nat _ _ Hrun) as (Hpaths & Halways).
  split; [now rewrite Hrun|]. split; [exact Hpaths | exact Halways].
Defined.

Lemma LoggerState_setExitSignal_last_wins_witness :
  let os := [LoggerState.Op_setExitSignal 15; LoggerState.Op_write [x07] true;
             LoggerState.Op_setExitSignal 2] in
  exists ls' l2,
    LoggerState.run_ops demo_encode demo_index_name 1 os demo_state calm_env demo_log
      = (Ret ls', l2) /\
    LoggerState.exit_signal ls' = 2 /\
    sink_chunks (LoggerState.rlog ls')
      (snd (LoggerState.dtor demo_encode 1 ls' calm_env l2)) =
    sink_chunks (LoggerState.rlog ls') l2 ++ [[x01; x02]].
Proof.
  intros os. eexists _, _. split; [vm_compute; reflexivity|].
  destruct (LoggerState_setExitSignal_last_wins demo_encode demo_index_name)
    as (_ & _ & _ & Hroute).
  destruct (Hroute 1%nat "/data"%string "r1"%string [x2a] calm_env [] demo_state demo_log
              ltac:(vm_compute; reflexivity)) as (_ & Hops).
  destruct (Hops 1%nat os _ _ ltac:(vm_compute; reflexivity)) as (Hcode & Hdown).
  split; [exact Hcode|].
  destruct (Hdown calm_env_calm ltac:(unfold fits_int; vm_compute; reflexivity) O)
    as (_ & Hr & _).
  exact Hr.
Defined.


(** * More about the framed sink *)

(** ** Construction *)

(** X1.  After [RawFile(path, use_bz2)] has returned, [file] is the stream the
    constructor opened, under [path] or [path + ".bz2"]; [bz_file] is set
    exactly when [use_bz2] is; the stream is open, the sink takes writes and
    nothing has been written to it by the constructor. *)
Theorem RawFile_ctor_gives_live_sink :
  forall path (use_bz2 : bool) e l rf l',
    closes_known l ->
    RawFile.ctor path use_bz2 e l = (Ret rf, l') ->
    let h := length l in
    RawFile.file rf = Some h /\
    RawFile.bz_file rf = (if use_bz2 then Some h else None) /\
    opened_path l' h = Some (path ++ (if use_bz2 then ".bz2" else ""))%string /\
    file_open h l' = true /\
    sink_live h l' = true /\
    (forall h', file_bytes h' l' = file_bytes h' l) /\
    (forall b, bz_plain b l' = bz_plain b l).
Proof.
  intros path use_bz2 e l rf l' Hk H h.
  destruct (Hk h (le_n _)) as [Hf Hb].
  apply ctor_Ret in H as (r1 & Hr1 & H). fold h in H.
  apply Z.eqb_neq in Hr1.
  set (c1 := Call_safe_fopen (path ++ (if use_bz2 then ".bz2" else ""))%string
                             "wb"%string) in *.
  assert (Hpath : forall tl, opened_path (l ++ (c1, r1) :: tl) h
                             = Some (path ++ (if use_bz2 then ".bz2" else ""))%string).
  { intros tl. unfold opened_path, h. rewrite nth_error_app2, Nat.sub_diag by lia.
    cbn [nth_error c1]. now rewrite Hr1. }
  destruct use_bz2.
  - destruct H as (r2 & -> & ->). cbn [RawFile.file RawFile.bz_file].
    repeat split; try apply Hpath.
    + unfold file_open. rewrite Hpath, existsb_app, Hf. reflexivity.
    + unfold sink_live, file_open. rewrite Hpath, !existsb_app, Hf, Hb. reflexivity.
    + intros h'. unfold file_bytes. rewrite flat_map_app. cbn. apply app_nil_r.
    + intros b. unfold bz_plain. rewrite flat_map_app. cbn. apply app_nil_r.
  - destruct H as (-> & ->). cbn [RawFile.file RawFile.bz_file].
    repeat split; try apply Hpath.
    + unfold file_open. rewrite Hpath, existsb_app, Hf. reflexivity.
    + unfold sink_live, file_open. rewrite Hpath, !existsb_app, Hf, Hb. reflexivity.
    + intros h'. unfold file_bytes. rewrite flat_map_app. cbn. apply app_nil_r.
    + intros b. unfold bz_plain. rewrite flat_map_app. cbn. apply app_nil_r.
Qed.

Lemma RawFile_ctor_gives_live_sink_witness :
  let run := RawFile.ctor "qlog" false calm_env [] in
  opened_path (snd run) 0 = Some "qlog"%string /\ sink_live 0 (snd run) = true.
Proof.
  intros run.
  destruct (RawFile_ctor_gives_live_sink "qlog" false calm_env []
              (RawFile.mk (Some 0%nat) None) (snd run)
              ltac:(intros n _; split; reflexivity) eq_refl)
    as (_ & _ & Hp & _ & Hl & _).
  split; [exact Hp | exact Hl].
Defined.

(** ** One write *)

Lemma firstn_twice {A} n (xs : list A) : firstn n (firstn n xs) = firstn n xs.
Proof. rewrite firstn_firstn. now rewrite Nat.min_id. Qed.

(** X2.  An uncompressed write that returns has appended the first [size] bytes
    of the buffer to the file of its sink, and has changed no other file
    and no compressed stream. *)
Theorem RawFile_write_plain_appends_prefix :
  forall fuel h data size e l l',
    RawFile.write fuel (RawFile.mk (Some h) None) data size e l = (Ret tt, l') ->
    file_bytes h l' = file_bytes h l ++ firstn (Z.to_nat size) data /\
    (forall h', h' <> h -> file_bytes h' l' = file_bytes h' l) /\
    (forall b, bz_plain b l' = bz_plain b l).
Proof.
  intros fuel h data size e l l'. rewrite write_plain_unfold. cbv zeta.
  destruct (rv _ =? size) eqn:Hrv; [|discriminate].
  intros H. injection H as <-. apply Z.eqb_eq in Hrv. repeat split.
  - unfold file_bytes. rewrite flat_map_app. cbn [flat_map fwrite_taken].
    rewrite Nat.eqb_refl, Hrv, Z.mul_1_r, app_nil_r. unfold region. cbn [Z.to_nat skipn].
    now rewrite firstn_twice.
  - intros h' Hne. unfold file_bytes. rewrite flat_map_app. cbn [flat_map fwrite_taken].
    apply Nat.eqb_neq in Hne. rewrite Hne. cbn. apply app_nil_r.
  - intros b. unfold bz_plain. rewrite flat_map_app. cbn. apply app_nil_r.
Qed.

Lemma RawFile_write_plain_appends_prefix_witness :
  file_bytes 0 (snd (RawFile.write 0 (RawFile.mk (Some 0%nat) None)
                                   [x01; x02; x03] 2 calm_env [])) = [x01; x02].
Proof.
  exact (proj1 (RawFile_write_plain_appends_prefix 0 0 [x01; x02; x03] 2 calm_env [] _
                  eq_refl)).
Defined.

Lemma bz_loop_not_entered fuel b data size count e l :
  size <= 0 -> RawFile.bz_loop fuel b data size 0 count e l = (Ret 0, l).
Proof.
  intros H. assert (Hlt : (0 <? size) = false) by (apply Z.ltb_ge; lia).
  destruct fuel; cbn [RawFile.bz_loop]; now rewrite Hlt.
Qed.

(** The events of a compressed write that returned: the same call, over
    and over. *)
Lemma write_bz_Ret_events fuel f b data size e l l' :
  RawFile.write fuel (RawFile.mk f (Some b)) data size e l = (Ret tt, l') ->
  exists n, l' = l ++ attempts e l (bz_call b data size) n.
Proof.
  rewrite write_bz_unfold. destruct (Z_lt_le_dec 0 size) as [Hpos|Hle].
  - destruct (RawFile.bz_loop fuel b data size 0 1 e l) as [[w| |] l1] eqn:Hloop;
      try discriminate.
    apply bz_loop_Ret in Hloop as (n & -> & _); [|assumption].
    destruct (w =? size); [|discriminate]. intros H. injection H as <-. now exists (S n).
  - rewrite bz_loop_not_entered by assumption.
    destruct (0 =? size); [|discriminate]. intros H. injection H as <-.
    exists O. unfold attempts. cbn. now rewrite app_nil_r.
Qed.

Lemma bz_plain_other_stream b b' data size e l n :
  b' <> b ->
  bz_plain b' (l ++ attempts e l (bz_call b data size) n) = bz_plain b' l.
Proof.
  intros Hne. unfold bz_plain. rewrite flat_map_app.
  rewrite (flat_map_all_nil (bz_taken b') (attempts e l (bz_call b data size) n));
    [apply app_nil_r|].
  intros ev Hev. apply in_map_iff in Hev as (i & <- & _).
  unfold bz_call. cbn [bz_taken]. apply Nat.eqb_neq in Hne. now rewrite Hne.
Qed.

(** X4.  What a compressed write hands to the compressor.  The length goes
    through an [int]: when the first call succeeds the write returns and the
    stream has gained the first [(int) size] bytes of the buffer.  That is
    the whole region of [size] bytes when [size] is below 2^31, and nothing
    at all when [size] is a multiple of 2^32. *)
Theorem RawFile_write_bz_length_as_int :
  forall fuel f b data size e l,
    0 < size < 2 ^ 64 ->
    rv (e (length l) (bz_call b data size)) = BZ_OK ->
    let run := RawFile.write (S fuel) (RawFile.mk f (Some b)) data size e l in
    bz_call b data size =
      Call_bzWrite b (firstn (Z.to_nat (to_int size)) data) (to_int size) /\
    fst run = Ret tt /\
    bz_plain b (snd run) = bz_plain b l ++ firstn (Z.to_nat (to_int size)) data /\
    (size < 2 ^ 31 -> to_int size = size) /\
    (size mod 2 ^ 32 = 0 -> bz_plain b (snd run) = bz_plain b l).
Proof.
  intros fuel f b data size e l Hsize Hok run.
  assert (Hcall : bz_call b data size =
                  Call_bzWrite b (firstn (Z.to_nat (to_int size)) data) (to_int size)).
  { unfold bz_call. rewrite Z.sub_0_r, Z.mul_1_l.
    rewrite !(to_size_t_small size) by (split; [lia | apply Hsize]).
    change (to_size_t (0 * 1)) with 0. reflexivity. }
  assert (Hrun : run = (Ret tt, l ++ [(bz_call b data size,
                                       e (length l) (bz_call b data size))])).
  { unfold run. rewrite write_bz_unfold, bz_loop_step by lia.
    unfold interrupted. rewrite Hok. cbn [Z.eqb BZ_OK BZ_IO_ERROR andb].
    now rewrite Z.eqb_refl. }
  assert (Hplain : bz_plain b (snd run) =
                   bz_plain b l ++ firstn (Z.to_nat (to_int size)) data).
  { rewrite Hrun. cbn [snd]. unfold bz_plain. rewrite flat_map_app.
    cbn [flat_map]. rewrite app_nil_r. f_equal.
    generalize dependent (e (length l) (bz_call b data size)). rewrite Hcall.
    intros r Hr _. cbn [bz_taken]. rewrite Nat.eqb_refl, Hr. reflexivity. }
  split; [exact Hcall|]. split; [now rewrite Hrun|]. split; [exact Hplain|]. split.
  - intros Hsmall. apply to_int_small.
    assert (H31 : 2 ^ 31 = 2147483648) by reflexivity. lia.
  - intros Hmod. rewrite Hplain.
    assert (Hz : to_int size = 0).
    { unfold to_int. rewrite Z.add_mod, Hmod by (now apply Z.pow_nonzero).
      reflexivity. }
    rewrite Hz. cbn. apply app_nil_r.
Qed.

Lemma RawFile_write_bz_length_as_int_witness :
  bz_plain 0 (snd (RawFile.write 1 (RawFile.mk (Some 0%nat) (Some 0%nat))
                                 [x01; x02; x03] 3 calm_env [])) = [x01; x02; x03].
Proof.
  refine (proj1 (proj2 (proj2 (RawFile_write_bz_length_as_int
                                 0 (Some 0%nat) 0 [x01; x02; x03] 3 calm_env [] _ _)))).
  - assert (H64 : 2 ^ 64 = 18446744073709551616) by reflexivity. lia.
  - reflexivity.
Defined.

Lemma write_events fuel rf data size e l :
  exists evs, snd (RawFile.write fuel rf data size e l) = l ++ evs /\
              forallb is_write evs = true.
Proof. apply emits_RawFile_write. Qed.

Lemma opened_path_writes l evs h :
  forallb is_write evs = true -> opened_path (l ++ evs) h = opened_path l h.
Proof.
  intros Hw. unfold opened_path.
  destruct (Nat.lt_ge_cases h (length l)) as [Hlt|Hge].
  - now rewrite nth_error_app1.
  - rewrite nth_error_app2 by assumption.
    assert (Hnone : nth_error l h = None) by now apply nth_error_None.
    rewrite Hnone.
    destruct (nth_error evs (h - length l)) as [[c r]|] eqn:Hn; [|reflexivity].
    apply nth_error_In in Hn. rewrite forallb_forall in Hw. specialize (Hw _ Hn).
    destruct c; cbn in Hw; try discriminate; reflexivity.
Qed.

Lemma existsb_writes (p : event -> bool) evs :
  forallb is_write evs = true ->
  (forall ev, is_write ev = true -> p ev = false) ->
  existsb p evs = false.
Proof.
  intros Hw Hp. induction evs as [|ev evs IH]; [reflexivity|].
  cbn [forallb] in Hw. apply andb_prop in Hw as [Hev Hevs].
  cbn [existsb]. rewrite (Hp ev Hev). now apply IH.
Qed.

(** X5.  A write opens nothing, closes nothing, creates and removes nothing,
    however it ends: afterwards the same streams are open, the same sinks
    take writes and the same paths exist as before. *)
Theorem RawFile_write_keeps_streams :
  forall fuel rf data size e l,
    let l' := snd (RawFile.write fuel rf data size e l) in
    (forall h, file_open h l' = file_open h l) /\
    (forall h, sink_live h l' = sink_live h l) /\
    (forall p, path_exists p l' = path_exists p l) /\
    (closes_known l -> live_paths l' = live_paths l).
Proof.
  intros fuel rf data size e l l'.
  destruct (write_events fuel rf data size e l) as (evs & Hl' & Hw).
  subst l'. rewrite Hl'.
  assert (Hfc : forall h, existsb (is_fclose h) evs = false).
  { intros h. apply existsb_writes; [assumption|].
    intros [[] r]; cbn; congruence. }
  assert (Hbc : forall h, existsb (is_bzWriteClose h) evs = false).
  { intros h. apply existsb_writes; [assumption|].
    intros [[] r]; cbn; congruence. }
  assert (Hopen : forall h, file_open h (l ++ evs) = file_open h l).
  { intros h. unfold file_open.
    rewrite opened_path_writes, existsb_app, Hfc, orb_false_r by assumption.
    reflexivity. }
  repeat split.
  - exact Hopen.
  - intros h. unfold sink_live. now rewrite Hopen, existsb_app, Hbc, orb_false_r.
  - intros p. rewrite path_exists_app. generalize (path_exists p l).
    clear Hl' Hfc Hbc Hopen. induction evs as [|[c r] evs IH]; intros present;
      [reflexivity|].
    cbn [forallb] in Hw. apply andb_prop in Hw as [Hev Hevs].
    cbn [fold_left]. rewrite <- (IH Hevs present) at 2.
    destruct c; cbn in Hev; try discriminate; reflexivity.
  - intros Hk. destruct (live_handles_writes evs l Hw Hk) as [Hlh _].
    unfold live_paths. rewrite Hlh. apply flat_map_agree.
    intros h _. now rewrite opened_path_writes.
Qed.

Lemma RawFile_write_keeps_streams_witness :
  live_paths (snd (RawFile.write 1 (RawFile.mk (Some 0%nat) None) [x01] 1 calm_env
                                 (snd (RawFile.ctor "qlog" false calm_env [])))) =
  ["qlog"%string].
Proof.
  refine (proj2 (proj2 (proj2 (RawFile_write_keeps_streams
                                 1 (RawFile.mk (Some 0%nat) None) [x01] 1 calm_env
                                 (snd (RawFile.ctor "qlog" false calm_env [])))))
            _).
  intros n Hn. split; reflexivity.
Defined.

(** ** Writes one after the other *)

Lemma write_plain_other_file fuel h data size e l l' h' :
  RawFile.write fuel (RawFile.mk (Some h) None) data size e l = (Ret tt, l') ->
  h' <> h -> file_bytes h' l' = file_bytes h' l.
Proof.
  rewrite write_plain_unfold. cbv zeta.
  destruct (rv _ =? size); [|discriminate].
  intros H Hne. injection H as <-.
  unfold file_bytes. rewrite flat_map_app. cbn [flat_map fwrite_taken].
  apply Nat.eqb_neq in Hne. rewrite Hne. cbn. apply app_nil_r.
Qed.

(** X6.  Uncompressed writes compose: when each of them returns, the file has
    gained the buffers, whole and in the order written, and no other file
    and no compressed stream has changed. *)
Theorem RawFile_writes_plain_concat :
  forall fuel h bufs e l l',
    write_all fuel (RawFile.mk (Some h) None) bufs e l = (Ret tt, l') ->
    file_bytes h l' = file_bytes h l ++ concat bufs /\
    (forall h', h' <> h -> file_bytes h' l' = file_bytes h' l) /\
    (forall b, bz_plain b l' = bz_plain b l).
Proof.
  intros fuel h bufs. induction bufs as [|buf bufs IH]; intros e l l' H;
    cbn [write_all] in H.
  - injection H as <-. cbn [concat]. rewrite app_nil_r. repeat split.
  - apply bind_inv_Ret in H as ([] & l1 & H1 & H2).
    unfold RawFile.write_array in H1.
    pose proof (fun h' => write_plain_other_file _ _ _ _ _ _ _ h' H1) as Hother1.
    apply write_plain_Ret_bytes in H1 as (Hf1 & Hb1).
    apply IH in H2 as (Hf & Hother & Hb).
    repeat split.
    + cbn [concat]. now rewrite Hf, Hf1, app_assoc.
    + intros h' Hne. now rewrite (Hother h' Hne), (Hother1 h' Hne).
    + intros b. now rewrite Hb, Hb1.
Qed.

Lemma RawFile_writes_plain_concat_witness :
  file_bytes 0 (snd (write_all 0 (RawFile.mk (Some 0%nat) None)
                               [[x01; x02]; []; [x03]] calm_env [])) = [x01; x02; x03].
Proof.
  exact (proj1 (RawFile_writes_plain_concat 0 0 [[x01; x02]; []; [x03]] calm_env [] _
                  eq_refl)).
Defined.

(** X7.  Compressed writes compose as long as no interrupted call had taken
    anything: when each write returns, the stream decodes to what it decoded
    to before followed by the buffers, whole and in the order written; no
    other stream and no file has changed. *)
Theorem RawFile_writes_bz_concat :
  forall fuel f b bufs e l l',
    untaken e ->
    Forall fits_int bufs ->
    write_all fuel (RawFile.mk f (Some b)) bufs e l = (Ret tt, l') ->
    bz_plain b l' = bz_plain b l ++ concat bufs /\
    (forall b', b' <> b -> bz_plain b' l' = bz_plain b' l) /\
    (forall h, file_bytes h l' = file_bytes h l).
Proof.
  intros fuel f b bufs e l l' Hun Hfit. revert l l'.
  induction Hfit as [|buf bufs Hbuf Hbufs IH]; intros l l' H; cbn [write_all] in H.
  - injection H as <-. cbn [concat]. rewrite app_nil_r. repeat split.
  - apply bind_inv_Ret in H as ([] & l1 & H1 & H2).
    unfold RawFile.write_array in H1.
    pose proof (write_bz_untaken_exact _ _ _ _ _ _ _ Hbuf Hun H1) as Hb1.
    pose proof (write_bz_file_bytes fuel f b buf (Z.of_nat (length buf)) e l) as Hf1.
    rewrite H1 in Hf1. cbn [snd] in Hf1.
    apply write_bz_Ret_events in H1 as (n & ->).
    apply IH in H2 as (Hb & Hother & Hf).
    repeat split.
    + cbn [concat]. now rewrite Hb, Hb1, app_assoc.
    + intros b' Hne. rewrite (Hother b' Hne). now apply bz_plain_other_stream.
    + intros h. now rewrite Hf, Hf1.
Qed.

Lemma eintr_env_untaken until : untaken (eintr_env until).
Proof.
  intros n c _. unfold eintr_env. destruct c; try reflexivity.
  now destruct (n <? until)%nat.
Qed.

Lemma RawFile_writes_bz_concat_witness :
  bz_plain 0 (snd (write_all 3 (RawFile.mk (Some 0%nat) (Some 0%nat))
                             [[x01; x02]; [x03]] (eintr_env 2) [])) = [x01; x02; x03].
Proof.
  refine (proj1 (RawFile_writes_bz_concat 3 (Some 0%nat) 0 [[x01; x02]; [x03]]
                   (eintr_env 2) [] _ (eintr_env_untaken 2) _ eq_refl)).
  repeat constructor; unfold fits_int; vm_compute; reflexivity.
Defined.

(** ** Teardown *)

(** X8.  Teardown of an uncompressed sink, in any environment: [safe_fflush],
    then [fclose], and nothing else.  The destructor returns exactly when
    [fclose] reports 0, whatever the flush reported; either way the stream
    is closed afterwards and no file and no compressed stream has changed. *)
Theorem RawFile_dtor_plain_flushes_then_closes :
  forall h e l,
    let c1 := Call_safe_fflush (Some h) in
    let c2 := Call_fclose (Some h) in
    let run := RawFile.dtor (RawFile.mk (Some h) None) e l in
    snd run = l ++ [(c1, e (length l) c1); (c2, e (S (length l)) c2)] /\
    (fst run = Ret tt <-> rv (e (S (length l)) c2) = 0) /\
    (fst run <> Ret tt -> fst run = Abort) /\
    file_open h (snd run) = false /\
    sink_live h (snd run) = false /\
    (forall h', file_bytes h' (snd run) = file_bytes h' l) /\
    (forall b, bz_plain b (snd run) = bz_plain b l).
Proof.
  intros h e l c1 c2 run. subst run. rewrite dtor_plain_unfold. cbv zeta.
  fold c1. fold c2. cbn [fst snd].
  assert (Hclosed : file_open h (l ++ [(c1, e (length l) c1); (c2, e (S (length l)) c2)])
                    = false).
  { unfold file_open. destruct (opened_path _ h); [|reflexivity].
    rewrite existsb_app. cbn. rewrite Nat.eqb_refl. cbn. now rewrite orb_true_r. }
  split; [reflexivity|]. split; [|split; [|split; [|split; [|split]]]].
  - destruct (rv (e (S (length l)) c2) =? 0) eqn:Hrv.
    + apply Z.eqb_eq in Hrv. now split.
    + apply Z.eqb_neq in Hrv. split; [discriminate | contradiction].
  - destruct (rv (e (S (length l)) c2) =? 0); [intros H; now elim H | reflexivity].
  - exact Hclosed.
  - unfold sink_live. now rewrite Hclosed.
  - intros h'. unfold file_bytes. rewrite flat_map_app. cbn. apply app_nil_r.
  - intros b. unfold bz_plain. rewrite flat_map_app. cbn. apply app_nil_r.
Qed.

(** X9.  Teardown of a compressed sink, in any environment: one call of
    [BZ2_bzWriteClose] with [abandon = 0].  The destructor returns exactly
    when that call reports [BZ_OK] and fails its assertion otherwise; either
    way the sink takes no more writes, and what the streams decode to and
    what the files hold is as before. *)
Theorem RawFile_dtor_bz_finalizes :
  forall f b e l,
    let c := Call_bzWriteClose b 0 in
    let run := RawFile.dtor (RawFile.mk f (Some b)) e l in
    snd run = l ++ [(c, e (length l) c)] /\
    (fst run = Ret tt <-> rv (e (length l) c) = BZ_OK) /\
    (fst run <> Ret tt -> fst run = Abort) /\
    sink_live b (snd run) = false /\
    (forall b', bz_plain b' (snd run) = bz_plain b' l) /\
    (forall h, file_bytes h (snd run) = file_bytes h l).
Proof.
  intros f b e l c run. subst run. rewrite dtor_bz_unfold. cbv zeta.
  fold c. cbn [fst snd].
  split; [reflexivity|]. split; [|split; [|split; [|split]]].
  - destruct (rv (e (length l) c) =? BZ_OK) eqn:Hrv.
    + apply Z.eqb_eq in Hrv. now split.
    + apply Z.eqb_neq in Hrv. split; [discriminate | contradiction].
  - destruct (rv (e (length l) c) =? BZ_OK); [intros H; now elim H | reflexivity].
  - unfold sink_live. rewrite existsb_app. cbn. rewrite Nat.eqb_refl. cbn.
    rewrite orb_true_r. apply andb_false_r.
  - intros b'. unfold bz_plain. rewrite flat_map_app. cbn. apply app_nil_r.
  - intros h. unfold file_bytes. rewrite flat_map_app. cbn. apply app_nil_r.
Qed.

(** ** What a flush confirms *)

Lemma flush_step_fst f st ev :
  fst (flush_step f st ev) = fst st ++ fwrite_taken f ev.
Proof.
  destruct ev as [c r]. destruct c as [| | | |o| | | | |]; try reflexivity.
  unfold flush_step. destruct o; [|reflexivity].
  now destruct (Nat.eqb _ _ && _).
Qed.

Lemma flush_step_snd f st ev :
  is_flush ev = false -> snd (flush_step f st ev) = snd st.
Proof.
  destruct ev as [c r]. destruct c; cbn; try reflexivity. discriminate.
Qed.

Lemma flush_fold_fst f l : forall st,
  fst (fold_left (flush_step f) l st) = fst st ++ file_bytes f l.
Proof.
  induction l as [|ev l IH]; intros st; cbn [fold_left].
  - unfold file_bytes. cbn. now rewrite app_nil_r.
  - rewrite IH, flush_step_fst. unfold file_bytes. cbn [flat_map].
    now rewrite app_assoc.
Qed.

Lemma flush_fold_snd f l : forall st,
  forallb (fun ev => negb (is_flush ev)) l = true ->
  snd (fold_left (flush_step f) l st) = snd st.
Proof.
  induction l as [|ev l IH]; intros st H; cbn [fold_left]; [reflexivity|].
  cbn [forallb] in H. apply andb_true_iff in H as [Hev Hl].
  rewrite IH by assumption. apply flush_step_snd.
  now destruct (is_flush ev).
Qed.

Lemma flush_fold_state f l :
  fold_left (flush_step f) l ([], []) = (file_bytes f l, flushed_bytes f l).
Proof.
  rewrite (surjective_pairing (fold_left _ _ _)). f_equal.
  now rewrite flush_fold_fst.
Qed.

Lemma flushed_bytes_app f l l2 :
  flushed_bytes f (l ++ l2) =
  snd (fold_left (flush_step f) l2 (file_bytes f l, flushed_bytes f l)).
Proof.
  unfold flushed_bytes at 1. now rewrite fold_left_app, flush_fold_state.
Qed.

(** Only a flush moves what is confirmed. *)
Lemma flushed_bytes_quiet f l l2 :
  forallb (fun ev => negb (is_flush ev)) l2 = true ->
  flushed_bytes f (l ++ l2) = flushed_bytes f l.
Proof.
  intros H. rewrite flushed_bytes_app. now rewrite flush_fold_snd.
Qed.

(** The two calls of the teardown of an uncompressed sink. *)
Lemma flushed_bytes_teardown h l r1 r2 :
  flushed_bytes h (l ++ [(Call_safe_fflush (Some h), r1); (Call_fclose (Some h), r2)]) =
  if rv r1 =? 0 then file_bytes h l else flushed_bytes h l.
Proof.
  rewrite flushed_bytes_app. cbn [fold_left flush_step fst snd fwrite_taken].
  rewrite Nat.eqb_refl. cbn [andb].
  destruct (rv r1 =? 0); cbn [fst snd]; [now rewrite !app_nil_r | reflexivity].
Qed.

Lemma is_write_not_flush evs :
  forallb is_write evs = true ->
  forallb (fun ev => negb (is_flush ev)) evs = true.
Proof.
  intros H. apply forallb_forall. intros [c r] Hin.
  apply (proj1 (forallb_forall _ _) H) in Hin.
  destruct c; try discriminate; reflexivity.
Qed.

(** ** From construction to teardown *)

Lemma emits_write_all fuel rf bufs : emits is_write (write_all fuel rf bufs).
Proof.
  induction bufs as [|buf bufs IH]; cbn [write_all]; [apply emits_ret|].
  apply emits_bind; [apply emits_RawFile_write | intros _; exact IH].
Qed.

Lemma write_all_plain_bytes fuel h bufs : forall e l l',
  write_all fuel (RawFile.mk (Some h) None) bufs e l = (Ret tt, l') ->
  file_bytes h l' = file_bytes h l ++ concat bufs.
Proof.
  induction bufs as [|buf bufs IH]; intros e l l' H; cbn [write_all] in H.
  - injection H as <-. cbn [concat]. now rewrite app_nil_r.
  - apply bind_inv_Ret in H as ([] & l1 & H1 & H2).
    unfold RawFile.write_array in H1.
    apply write_plain_Ret_bytes in H1 as (Hf1 & _).
    apply IH in H2. cbn [concat]. now rewrite H2, Hf1, app_assoc.
Qed.

Lemma write_all_bz_plain fuel f b bufs e : forall l l',
  untaken e -> Forall fits_int bufs ->
  write_all fuel (RawFile.mk f (Some b)) bufs e l = (Ret tt, l') ->
  bz_plain b l' = bz_plain b l ++ concat bufs.
Proof.
  induction bufs as [|buf bufs IH]; intros l l' Hun Hfit H; cbn [write_all] in H.
  - injection H as <-. cbn [concat]. now rewrite app_nil_r.
  - inversion Hfit as [|? ? Hbuf Hbufs]; subst.
    apply bind_inv_Ret in H as ([] & l1 & H1 & H2).
    unfold RawFile.write_array in H1.
    apply (write_bz_untaken_exact _ _ _ _ _ _ _ Hbuf Hun) in H1.
    apply IH in H2; try assumption. cbn [concat]. now rewrite H2, H1, app_assoc.
Qed.

(** X10.  The life of an uncompressed sink, in any environment.  When
    construction, the writes and teardown have all returned: the file that
    was opened is [path] itself, the stream has accepted the buffers
    written, whole and in order, after whatever it had accepted before, and
    it is closed.  The run ends with [safe_fflush] and an [fclose] that
    reported 0.  The destructor drops the result of the flush: only when
    the flush reported 0 are the buffers confirmed as delivered; when it
    failed the lifetime has returned all the same, with none of them
    confirmed. *)
Theorem RawFile_plain_lifetime :
  forall fuel path bufs e l rf l',
    sink_lifetime fuel path false bufs e l = (Ret rf, l') ->
    let h := length l in
    rf = RawFile.mk (Some h) None /\
    opened_path l' h = Some path /\
    file_bytes h l' = file_bytes h l ++ concat bufs /\
    file_open h l' = false /\
    sink_live h l' = false /\
    exists l0 r_flush r_close,
      l' = l0 ++ [(Call_safe_fflush (Some h), r_flush);
                  (Call_fclose (Some h), r_close)] /\
      rv r_close = 0 /\
      (rv r_flush = 0 -> flushed_bytes h l' = file_bytes h l ++ concat bufs) /\
      (rv r_flush <> 0 -> flushed_bytes h l' = flushed_bytes h l).
Proof.
  intros fuel path bufs e l rf l' H h. unfold sink_lifetime in H.
  apply bind_inv_Ret in H as (rf0 & l1 & Hc & H).
  apply bind_inv_Ret in H as ([] & l2 & Hw & H).
  apply bind_inv_Ret in H as ([] & l3 & Hd & H).
  injection H as <- <-.
  apply ctor_Ret in Hc as (r1 & Hr1 & -> & ->). fold h in Hw, Hd |- *.
  rewrite string_append_nil_r in *.
  pose proof (write_all_plain_bytes _ _ _ _ _ _ Hw) as Hbytes.
  apply (emits_Ret _ _ _ _ _ _ (emits_write_all _ _ _)) in Hw as (evs & -> & Hevs).
  rewrite dtor_plain_unfold in Hd. cbv zeta in Hd.
  destruct (rv _ =? 0) eqn:Hclose; [|discriminate]. injection Hd as <-.
  apply Z.eqb_eq in Hclose.
  assert (Hclosed : forall a x r,
             file_open h (a ++ [x; (Call_fclose (Some h), r)]) = false).
  { intros a x r. unfold file_open. destruct (opened_path _ h); [|reflexivity].
    rewrite existsb_app. cbn. rewrite Nat.eqb_refl. cbn.
    now rewrite !orb_true_r. }
  assert (Hacc : file_bytes h (l ++ [(Call_safe_fopen path "wb", r1)]) = file_bytes h l).
  { unfold file_bytes. rewrite flat_map_app. cbn. now rewrite app_nil_r. }
  split; [reflexivity|]. split; [|split; [|split; [|split]]].
  - rewrite <- !app_assoc. cbn [app]. unfold opened_path, h.
    rewrite nth_error_app2, Nat.sub_diag by lia. cbn [nth_error].
    apply Z.eqb_neq in Hr1. now rewrite Hr1.
  - unfold file_bytes in *. rewrite flat_map_app. cbn [flat_map fwrite_taken].
    rewrite !app_nil_r. rewrite Hbytes. rewrite flat_map_app. cbn. now rewrite app_nil_r.
  - apply Hclosed.
  - unfold sink_live. now rewrite Hclosed.
  - eexists _, _, _. split; [reflexivity|]. split; [exact Hclose|].
    rewrite flushed_bytes_teardown. split; intros Hflush.
    + apply Z.eqb_eq in Hflush. rewrite Hflush, Hbytes. now rewrite Hacc.
    + apply Z.eqb_neq in Hflush. rewrite Hflush.
      rewrite flushed_bytes_quiet by (apply is_write_not_flush; exact Hevs).
      now apply flushed_bytes_quiet.
Qed.

(** The same two buffers through a sink whose flush succeeds, and through
    one whose flush fails while [fclose] reports 0: both lifetimes return
    with the three bytes accepted; only the first has them confirmed. *)
Lemma RawFile_plain_lifetime_witness :
  let noflush : env :=
    fun n c => match c with
               | Call_safe_fflush _ => mkReply (-1) 0 0
               | _ => calm_env n c
               end in
  let l1 := snd (sink_lifetime 0 "qlog" false [[x01; x02]; [x03]] calm_env []) in
  let l2 := snd (sink_lifetime 0 "qlog" false [[x01; x02]; [x03]] noflush []) in
  (opened_path l1 0 = Some "qlog"%string /\
   file_bytes 0 l1 = [x01; x02; x03] /\
   file_open 0 l1 = false /\
   flushed_bytes 0 l1 = [x01; x02; x03]) /\
  (fst (sink_lifetime 0 "qlog" false [[x01; x02]; [x03]] noflush []) =
     Ret (RawFile.mk (Some 0%nat) None) /\
   file_bytes 0 l2 = [x01; x02; x03] /\
   file_open 0 l2 = false /\
   flushed_bytes 0 l2 = []).
Proof.
  intros noflush l1 l2. split.
  - destruct (RawFile_plain_lifetime 0 "qlog" [[x01; x02]; [x03]] calm_env []
                (RawFile.mk (Some 0%nat) None) l1 eq_refl)
      as (_ & Hp & Hb & Hc & _ & _).
    split; [exact Hp|]. split; [exact Hb|]. split; [exact Hc | reflexivity].
  - destruct (RawFile_plain_lifetime 0 "qlog" [[x01; x02]; [x03]] noflush []
                (RawFile.mk (Some 0%nat) None) l2 eq_refl)
      as (_ & _ & Hb & Hc & _ & _).
    split; [reflexivity|]. split; [exact Hb|]. split; [exact Hc | reflexivity].
Defined.

(** X11.  The life of a compressed sink whose interrupted calls had taken
    nothing.  When construction, the writes and teardown have all returned:
    the file that was opened is [path + ".bz2"], its stream decodes to the
    buffers written, whole and in order, after whatever it decoded to
    before, and the sink takes no more writes. *)
Theorem RawFile_bz_lifetime :
  forall fuel path bufs e l rf l',
    untaken e ->
    Forall fits_int bufs ->
    sink_lifetime fuel path true bufs e l = (Ret rf, l') ->
    let h := length l in
    rf = RawFile.mk (Some h) (Some h) /\
    opened_path l' h = Some (path ++ ".bz2")%string /\
    bz_plain h l' = bz_plain h l ++ concat bufs /\
    sink_live h l' = false.
Proof.
  intros fuel path bufs e l rf l' Hun Hfit H h. unfold sink_lifetime in H.
  apply bind_inv_Ret in H as (rf0 & l1 & Hc & H).
  apply bind_inv_Ret in H as ([] & l2 & Hw & H).
  apply bind_inv_Ret in H as ([] & l3 & Hd & H).
  injection H as <- <-.
  apply ctor_Ret in Hc as (r1 & Hr1 & r2 & -> & ->). fold h in Hw, Hd |- *.
  pose proof (write_all_bz_plain _ _ _ _ _ _ _ Hun Hfit Hw) as Hplain.
  apply (emits_Ret _ _ _ _ _ _ (emits_write_all _ _ _)) in Hw as (evs & -> & Hevs).
  rewrite dtor_bz_unfold in Hd. cbv zeta in Hd.
  destruct (rv _ =? BZ_OK); [|discriminate]. injection Hd as <-.
  split; [reflexivity|]. split; [|split].
  - rewrite <- !app_assoc. cbn [app]. unfold opened_path, h.
    rewrite nth_error_app2, Nat.sub_diag by lia. cbn [nth_error].
    apply Z.eqb_neq in Hr1. now rewrite Hr1.
  - unfold bz_plain in *. rewrite flat_map_app. cbn [flat_map bz_taken].
    rewrite !app_nil_r. rewrite Hplain. rewrite flat_map_app. cbn. now rewrite app_nil_r.
  - unfold sink_live. rewrite existsb_app. cbn. rewrite Nat.eqb_refl. cbn.
    rewrite orb_true_r. apply andb_false_r.
Qed.

Lemma RawFile_bz_lifetime_witness :
  let l' := snd (sink_lifetime 2 "rlog" true [[x01; x02]; [x03]] (eintr_env 3) []) in
  opened_path l' 0 = Some "rlog.bz2"%string /\
  bz_plain 0 l' = [x01; x02; x03].
Proof.
  intros l'.
  destruct (RawFile_bz_lifetime 2 "rlog" [[x01; x02]; [x03]] (eintr_env 3) []
              (RawFile.mk (Some 0%nat) (Some 0%nat)) l'
              (eintr_env_untaken 3)
              ltac:(repeat constructor; unfold fits_int; vm_compute; reflexivity)
              eq_refl)
    as (_ & Hp & Hb & _).
  split; [exact Hp | exact Hb].
Defined.

Lemma calm_write_all_returns e fuel rf bufs :
  calm e -> returns (fun _ => True) (write_all (S fuel) rf bufs) e.
Proof.
  intros Hcalm. induction bufs as [|buf bufs IH]; cbn [write_all].
  - now apply returns_ret.
  - eapply returns_bind; [|intros _ _; exact IH].
    apply calm_RawFile_write_returns; [assumption | lia].
Qed.

(** X12.  When no call fails, the whole life of a sink returns, whatever the
    buffers are and whether the sink compresses or not; one unit of fuel is
    enough, since no call is retried. *)
Theorem RawFile_calm_lifetime_returns :
  forall e fuel path use_bz2 bufs l,
    calm e ->
    exists l', sink_lifetime (S fuel) path use_bz2 bufs e l =
               (Ret (RawFile.mk (Some (length l))
                                (if use_bz2 then Some (length l) else None)), l').
Proof.
  intros e fuel path use_bz2 bufs l Hcalm. unfold sink_lifetime.
  destruct (calm_RawFile_ctor_returns e path use_bz2 Hcalm l)
    as (rf & l1 & Hc & h & ->).
  pose proof Hc as Hc'. apply ctor_Ret in Hc' as (r1 & _ & Hrf).
  assert (Hh : h = length l).
  { destruct use_bz2.
    - destruct Hrf as (r2 & Hrf & _). now injection Hrf.
    - destruct Hrf as (Hrf & _). now injection Hrf. }
  subst h.
  destruct (calm_write_all_returns e fuel
              (RawFile.mk (Some (length l)) (if use_bz2 then Some (length l) else None))
              bufs Hcalm l1) as ([] & l2 & Hw & _).
  destruct (calm_RawFile_dtor_returns e
              (RawFile.mk (Some (length l)) (if use_bz2 then Some (length l) else None))
              Hcalm l2) as ([] & l3 & Hd & _).
  exists l3. unfold bind. now rewrite Hc, Hw, Hd.
Qed.

Lemma RawFile_calm_lifetime_returns_witness :
  exists l', sink_lifetime 1 "rlog" true [[x01]] calm_env [] =
             (Ret (RawFile.mk (Some 0%nat) (Some 0%nat)), l').
Proof.
  exact (RawFile_calm_lifetime_returns calm_env 0 "rlog" true [[x01]] [] calm_env_calm).
Defined.

(** ** A short write *)

(** X3.  An uncompressed write that comes back short aborts with the part
    it wrote still unflushed.  The assertion fails after the one call of
    [safe_fwrite]; the stream has accepted the first [written] bytes of
    the buffer, but nothing flushes it before the abort, so none of them
    is confirmed as delivered. *)
Theorem RawFile_write_plain_short_aborts_unflushed :
  forall fuel h data size e l,
    let c := Call_safe_fwrite (Some h) (region data 0 size) 1 size in
    let written := rv (e (length l) c) in
    let run := RawFile.write fuel (RawFile.mk (Some h) None) data size e l in
    0 <= written < size ->
    fst run = Abort /\
    snd run = l ++ [(c, e (length l) c)] /\
    file_bytes h (snd run) = file_bytes h l ++ firstn (Z.to_nat written) data /\
    flushed_bytes h (snd run) = flushed_bytes h l.
Proof.
  intros fuel h data size e l c written run Hshort. subst run.
  rewrite write_plain_unfold. cbv zeta. fold c. fold written.
  assert (Hne : (written =? size) = false) by (apply Z.eqb_neq; lia).
  rewrite Hne. cbn [fst snd]. split; [reflexivity|]. split; [reflexivity|]. split.
  - unfold file_bytes. rewrite flat_map_app. cbn [flat_map fwrite_taken c].
    fold c. fold written. rewrite Nat.eqb_refl, Z.mul_1_r, app_nil_r.
    unfold region. cbn [Z.to_nat skipn]. rewrite firstn_firstn.
    f_equal. f_equal. lia.
  - now apply flushed_bytes_quiet.
Qed.

Lemma RawFile_write_plain_short_aborts_unflushed_witness :
  let e : env := fun _ _ => mkReply 1 0 0 in
  let run := RawFile.write 0 (RawFile.mk (Some 0%nat) None) [x01; x02; x03] 3 e [] in
  fst run = Abort /\
  snd run = [(Call_safe_fwrite (Some 0%nat) [x01; x02; x03] 1 3, mkReply 1 0 0)] /\
  file_bytes 0 (snd run) = [x01] /\
  flushed_bytes 0 (snd run) = [].
Proof.
  intros e run.
  apply (RawFile_write_plain_short_aborts_unflushed 0 0 [x01; x02; x03] 3 e []).
  cbn. lia.
Defined.

Lemma RawFile_dtor_plain_flushes_then_closes_witness :
  let run := RawFile.dtor (RawFile.mk (Some 0%nat) None)
               (fun _ c => match c with
                           | Call_safe_fflush _ => mkReply (-1) 0 0
                           | _ => mkReply 0 0 0
                           end) [] in
  fst run = Ret tt /\ file_open 0 (snd run) = false.
Proof.
  intros run.
  destruct (RawFile_dtor_plain_flushes_then_closes 0
              (fun _ c => match c with
                          | Call_safe_fflush _ => mkReply (-1) 0 0
                          | _ => mkReply 0 0 0
                          end) [])
    as (_ & Hret & _ & Hclosed & _).
  split; [apply Hret; reflexivity | exact Hclosed].
Defined.

Lemma RawFile_dtor_bz_finalizes_witness :
  let run := RawFile.dtor (RawFile.mk (Some 0%nat) (Some 0%nat))
               (fun _ _ => mkReply BZ_IO_ERROR 0 0) [] in
  fst run = Abort /\ sink_live 0 (snd run) = false.
Proof.
  intros run.
  destruct (RawFile_dtor_bz_finalizes (Some 0%nat) 0
              (fun _ _ => mkReply BZ_IO_ERROR 0 0) [])
    as (_ & _ & Habort & Hdead & _).
  split; [apply Habort; discriminate | exact Hdead].
Defined.
